(** * My-live-website: the recommendation endpoint and the shimmer scripts

    A shallow embedding of the two JavaScript sources of the repository:

    - the serverless recommendation handler ([getApiKey], [tryReadFileSync]
      and the exported request handler), in module [Recommend];
    - the two navigation highlighters of [asset/shimmer.js] (the fixed-list
      script and the data-driven script), in module [Shimmer].

    JavaScript strings are sequences of code units; they are modelled by
    [string], one [ascii] per code unit, which covers the code units below
    256.  JSON data is modelled by the inductive type [value]. *)

From Stdlib Require Import String Ascii ZArith QArith Lia DecimalString.
From stdpp Require Import base option list gmap strings.

#[local] Set Warnings "-register-all".

(** ** String primitives of the language runtime *)

Module JsString.

(** WhiteSpace and LineTerminator code units below 256: TAB, LF, VT, FF,
    CR, SP and NBSP. *)
Definition is_white_space (c : ascii) : bool :=
  let n := nat_of_ascii c in
  ((9 <=? n) && (n <=? 13) || (n =? 32) || (n =? 160))%nat.

Fixpoint trimStart (s : string) : string :=
  match s with
  | EmptyString => EmptyString
  | String c r => if is_white_space c then trimStart r else s
  end.

Fixpoint trimEnd (s : string) : string :=
  match s with
  | EmptyString => EmptyString
  | String c r =>
      match trimEnd r with
      | EmptyString => if is_white_space c then EmptyString else String c EmptyString
      | r' => String c r'
      end
  end.

(** [String.prototype.trim] *)
Definition trim (s : string) : string := trimEnd (trimStart s).

(** Lower-casing of one code unit: A-Z, and the Latin-1 capitals
    U+00C0..U+00DE without the multiplication sign U+00D7. *)
Definition lower_unit (c : ascii) : ascii :=
  let n := nat_of_ascii c in
  if ((65 <=? n) && (n <=? 90) || (192 <=? n) && (n <=? 222) && negb (n =? 215))%nat
  then ascii_of_nat (n + 32) else c.

(** [String.prototype.toLowerCase] *)
Fixpoint toLowerCase (s : string) : string :=
  match s with
  | EmptyString => EmptyString
  | String c r => String (lower_unit c) (toLowerCase r)
  end.

(** [String.prototype.split] with a one-unit separator: never empty. *)
Fixpoint split (sep : ascii) (s : string) : list string :=
  match s with
  | EmptyString => [EmptyString]
  | String c r =>
      if Ascii.eqb c sep then EmptyString :: split sep r
      else match split sep r with
           | h :: t => String c h :: t
           | [] => [String c EmptyString]
           end
  end.

(** [String.prototype.indexOf]: position of the first occurrence of
    [needle], counted from [i], or -1. *)
Fixpoint indexOf_from (needle s : string) (i : Z) : Z :=
  if String.prefix needle s then i
  else match s with
       | EmptyString => (-1)%Z
       | String _ r => indexOf_from needle r (i + 1)
       end.

Definition indexOf (needle s : string) : Z := indexOf_from needle s 0.

(** [String.prototype.includes] *)
Fixpoint includes (needle s : string) : bool :=
  String.prefix needle s ||
  match s with
  | EmptyString => false
  | String _ r => includes needle r
  end.

Fixpoint drop_units (n : nat) (s : string) : string :=
  match n, s with
  | O, _ => s
  | S _, EmptyString => EmptyString
  | S k, String _ r => drop_units k r
  end.

(** [String.prototype.slice] with one argument; a negative start counts
    from the end. *)
Definition slice (s : string) (start : Z) : string :=
  if (start <? 0)%Z
  then drop_units (Z.to_nat (Z.max (Z.of_nat (String.length s) + start) 0)) s
  else drop_units (Z.to_nat start) s.

(** Truthiness of a string: non-empty. *)
Definition truthy (s : string) : bool :=
  match s with EmptyString => false | _ => true end.

End JsString.

(** ** JSON data and the dynamic operations the sources apply to it *)

Module Js.

(** A value as [JSON.parse] can build it, plus [undefined].  A number is a
    rational: only its being zero and its identity are ever looked at. *)
Inductive value : Type :=
| JUndefined
| JNull
| JBool (b : bool)
| JNum (q : Q)
| JStr (s : string)
| JArr (items : list value)
| JObj (fields : list (string * value)).

Inductive exn : Type :=
| TypeError
| SyntaxError
| IOError (msg : string).

(** ToBoolean *)
Definition truthy (v : value) : bool :=
  match v with
  | JUndefined | JNull => false
  | JBool b => b
  | JNum q => negb (Qeq_bool q 0)
  | JStr s => JsString.truthy s
  | JArr _ | JObj _ => true
  end.

Definition nullish (v : value) : bool :=
  match v with JUndefined | JNull => true | _ => false end.

(** [Array.isArray] *)
Definition isArray (v : value) : bool :=
  match v with JArr _ => true | _ => false end.

(** Strict equality of a value with a string literal. *)
Definition is_string (lit : string) (v : value) : bool :=
  match v with JStr s => String.eqb s lit | _ => false end.

(** [Array.prototype.includes] with a string literal argument. *)
Definition array_includes (items : list value) (lit : string) : bool :=
  existsb (is_string lit) items.

(** [Array.prototype.indexOf] with a string literal argument. *)
Fixpoint array_indexOf_from (items : list value) (lit : string) (i : Z) : Z :=
  match items with
  | [] => (-1)%Z
  | v :: r => if is_string lit v then i else array_indexOf_from r lit (i + 1)
  end.

(** [Array.prototype.slice] with one argument. *)
Definition array_slice (items : list value) (start : Z) : list value :=
  if (start <? 0)%Z
  then drop (Z.to_nat (Z.max (Z.of_nat (length items) + start) 0)) items
  else drop (Z.to_nat start) items.

Fixpoint assoc (k : string) (fields : list (string * value)) : option value :=
  match fields with
  | [] => None
  | (k', v) :: r => if String.eqb k' k then Some v else assoc k r
  end.

(** Number of entries of [Object.keys (v)], for a value that is neither
    [undefined] nor [null]. *)
Definition keys_length (v : value) : nat :=
  match v with
  | JObj fields => length fields
  | JArr items => length items
  | JStr s => String.length s
  | _ => 0
  end.

Fixpoint join_comma (parts : list string) : string :=
  match parts with
  | [] => EmptyString
  | [p] => p
  | p :: r => p +:+ "," +:+ join_comma r
  end.

(** The language runtime: the JSON codec ([None]: [JSON.parse] throws) and
    the printing of numbers.  Of the codec only one fact is used: the text
    of the empty object reads as the empty object. *)
Class Runtime : Type := {
  JSON_parse : string → option value;
  JSON_stringify : value → string;
  Number_toString : Q → string;
  JSON_parse_empty_object : JSON_parse "{}" = Some (JObj [])
}.

(** ToString *)
Fixpoint ToString `{Runtime} (v : value) : string :=
  match v with
  | JUndefined => "undefined"
  | JNull => "null"
  | JBool b => if b then "true" else "false"
  | JNum q => Number_toString q
  | JStr s => s
  | JArr items =>
      join_comma (map (λ e, match e with
                            | JUndefined | JNull => EmptyString
                            | _ => ToString e
                            end) items)
  | JObj _ => "[object Object]"
  end.

End Js.

(** ** Effects: a trace of what the handler did, and how it ended *)

Module Eff.
Import Js.

Inductive logged : Type :=
| LogText (s : string)
| LogExn (e : exn).

Record fetch_init : Type := FetchInit {
  fi_method : string;
  fi_headers : list (string * string);
  fi_body : string
}.

Inductive event : Type :=
| EvBodyListen                               (* req.on ('data' | 'end' | 'error') *)
| EvReadFile (path : string)                 (* fs.readFileSync *)
| EvFetch (url : string) (init : fetch_init) (* the upstream call *)
| EvConsoleError (label : string) (detail : logged).

Inductive outcome (A : Type) : Type :=
| Done (a : A)      (* returned *)
| Threw (e : exn)   (* an exception escapes *)
| Pending.          (* awaits a promise that never settles *)
Arguments Done {A} a.
Arguments Threw {A} e.
Arguments Pending {A}.

Record run (A : Type) : Type := Run {
  trace : list event;
  result : outcome A
}.
Arguments Run {A} trace result.
Arguments trace {A} r.
Arguments result {A} r.

Definition throw {A} (e : exn) : run A := Run [] (Threw e).
Definition pending {A} : run A := Run [] Pending.
Definition emit (ev : event) : run unit := Run [ev] (Done tt).

#[export] Instance run_ret : MRet run := λ A a, Run [] (Done a).

#[export] Instance run_bind : MBind run := λ A B f m,
  match result m with
  | Done a => Run (trace m ++ trace (f a)) (result (f a))
  | Threw e => Run (trace m) (Threw e)
  | Pending => Run (trace m) Pending
  end.

(** [try { m } catch (e) { h e }] *)
Definition try_catch {A} (m : run A) (h : exn → run A) : run A :=
  match result m with
  | Threw e => Run (trace m ++ trace (h e)) (result (h e))
  | _ => m
  end.

End Eff.

(** ** The recommendation endpoint *)

Module Recommend.
Import JsString Js Eff.
#[local] Open Scope string_scope.

(** What the upstream call resolves to: [resp.ok], and the body that
    [resp.text ()] and [resp.json ()] read ([None]: the read rejects). *)
Record upstream_response : Type := Upstream {
  ok : bool;
  body_text : option string
}.

(** What the network does with a call.  [FetchPending]: the call, or the
    read of the body of its answer, never settles; the handler does
    nothing between the two awaits, so one case stands for both. *)
Inductive fetch_result : Type :=
| FetchRejects (e : exn)
| FetchResolves (r : upstream_response)
| FetchPending.

(** The surroundings of one invocation: [process.env], the readable files
    with their contents, and the network's answer to a call. *)
Record world : Type := World {
  env : gmap string string;
  files : gmap string string;
  network : string → fetch_init → fetch_result
}.

Inductive stream_event : Type :=
| Data (chunk : string)
| End
| Error.

(** [req]: the method, the body as the platform parsed it ([JUndefined]
    when it did not), and the events the request stream will deliver. *)
Record request : Type := Request {
  method : string;
  body : value;
  stream : list stream_event
}.

Inductive payload : Type :=
| Send (text : string)   (* res.send *)
| Json (v : value).      (* res.json *)

Record response : Type := Response {
  status : Z;
  sent : payload
}.

(** [v.k] for the names the handler reads ([answers], [destinations],
    [relocationType], [choices], [message], [content]): none of them is an
    index, [length] or an inherited member, so only an object has them. *)
Definition get (v : value) (k : string) : run value :=
  match v with
  | JUndefined | JNull => throw TypeError
  | JObj fields => mret (default JUndefined (assoc k fields))
  | _ => mret JUndefined
  end.

(** [v[0]] for a value that is neither [undefined] nor [null]. *)
Definition get_first (v : value) : value :=
  match v with
  | JArr items => default JUndefined (head items)
  | JStr (String c _) => JStr (String c EmptyString)
  | JObj fields => default JUndefined (assoc "0" fields)
  | _ => JUndefined
  end.

(** [recv.includes (lit)] *)
Definition js_includes (recv : value) (lit : string) : run bool :=
  match recv with
  | JStr s => mret (includes lit s)
  | JArr items => mret (array_includes items lit)
  | _ => throw TypeError
  end.

(** [recv.indexOf (lit)] *)
Definition js_indexOf (recv : value) (lit : string) : run Z :=
  match recv with
  | JStr s => mret (indexOf lit s)
  | JArr items => mret (array_indexOf_from items lit 0)
  | _ => throw TypeError
  end.

(** [recv.slice (start)] *)
Definition js_slice (recv : value) (start : Z) : run value :=
  match recv with
  | JStr s => mret (JStr (slice s start))
  | JArr items => mret (JArr (array_slice items start))
  | _ => throw TypeError
  end.

Definition opt_truthy (o : option string) : bool :=
  match o with Some s => JsString.truthy s | None => false end.

(** [process.env.X && process.env.X.trim ()] *)
Definition set_and_nonblank (o : option string) : bool :=
  match o with Some v => JsString.truthy v && JsString.truthy (trim v) | None => false end.

Definition dquote : string := String "034" EmptyString.
Definition nl : string := String "010" EmptyString.

Definition system_prompt : string :=
  "You are a concise relocation advisor expert for Costa Rica, Panama, and Belize." +:+ nl +:+
  "Given a user's structured answers, pick the single best country (Costa Rica, Panama, or Belize)," +:+ nl +:+
  "explain why in 2-4 short bullet reasons, and list 3 cities with a brief reason for each." +:+ nl +:+
  "Return a strict JSON object ONLY (no extra commentary).".

Definition endpoint : string := "https://api.openai.com/v1/chat/completions".

(** The [fallback] object literal. *)
Definition fallback_object (pick : string) : value :=
  JObj
    [ ("country", JStr pick);
      ("score", JNum 75);
      ("reasons", JArr
         [ JStr ("Based on your selections, " +:+ pick +:+ " aligns best with your priorities.");
           JStr "Good balance of lifestyle, services, and accessibility for your needs." ]);
      ("cities", JArr
         [ JObj [ ("name", JStr (if String.eqb pick "Costa Rica"
                                 then "San Jos" +:+ String "233" EmptyString
                                 else if String.eqb pick "Panama" then "Panama City"
                                 else "Belize City"));
                  ("reason", JStr "Main hub with services") ];
           JObj [ ("name", JStr (if String.eqb pick "Costa Rica" then "Guanacaste"
                                 else if String.eqb pick "Panama" then "Boquete"
                                 else "San Pedro"));
                  ("reason", JStr "Popular expat/retirement spot") ];
           JObj [ ("name", JStr (if String.eqb pick "Costa Rica" then "La Fortuna"
                                 else if String.eqb pick "Panama" then "David"
                                 else "Caye Caulker"));
                  ("reason", JStr "Leisure and nature options") ] ]) ].

(** The normalised destination list [dests]. *)
Definition normalise_destinations (d : value) : list value :=
  match d with
  | JArr items => items
  | _ => if Js.truthy d then [d] else []
  end.

(** The country of the fallback: [pick] after the chain of overrides. *)
Definition fallback_pick (answers : value) : run string :=
  d ← get answers "destinations";
  let dests := normalise_destinations d in
  r ← get answers "relocationType";
  let relocation := if Js.truthy r then r else JStr EmptyString in
  if array_includes dests "panama" then mret "Panama"
  else if array_includes dests "belize" then mret "Belize"
  else if Js.truthy relocation then
    b ← js_includes relocation "work";
    mret (if b : bool then "Panama" else "Costa Rica")
  else mret "Costa Rica".

(** The branch taken when no credential resolves. *)
Definition fallback (answers : value) : run response :=
  pick ← fallback_pick answers;
  mret (Response 200 (Json (fallback_object pick))).

Section Handler.
Context `{Runtime} (w : world).

Definition readFileSync (path : string) : run string :=
  _ ← emit (EvReadFile path);
  match files w !! path with
  | Some content => mret content
  | None => throw (IOError path)
  end.

Definition tryReadFileSync (path : string) : run (option string) :=
  try_catch
    (content ← readFileSync path;
     let s := trim content in
     if JsString.truthy s then mret (Some s) else mret None)
    (λ _, mret None).

Definition getApiKey : run (option string) :=
  if set_and_nonblank (env w !! "OPENAI_API_KEY")
  then mret (trim <$> env w !! "OPENAI_API_KEY")
  else if set_and_nonblank (env w !! "OPEN_AI_KEY")
  then mret (trim <$> env w !! "OPEN_AI_KEY")
  else
    fromFile ← (if opt_truthy (env w !! "OPEN_AI_KEY_FILE")
                then tryReadFileSync (default EmptyString (env w !! "OPEN_AI_KEY_FILE"))
                else mret None);
    if opt_truthy fromFile then mret fromFile
    else
      fromLocal ← tryReadFileSync "./OPEN_AI_KEY";
      if opt_truthy fromLocal then mret fromLocal
      else
        fromRunSecrets ← tryReadFileSync "/run/secrets/OPEN_AI_KEY";
        if opt_truthy fromRunSecrets then mret fromRunSecrets
        else mret None.

(** The promise that reads the request stream: [d] accumulates the
    chunks; the first of ['end'] and ['error'] resolves it. *)
Fixpoint read_stream (events : list stream_event) (d : string) : run value :=
  match events with
  | [] => pending
  | Data c :: rest => read_stream rest (d +:+ c)
  | End :: _ =>
      match JSON_parse (if JsString.truthy d then d else "{}") with
      | Some v => mret v
      | None => mret (JObj [])
      end
  | Error :: _ => mret (JObj [])
  end.

(** [let body = req.body; if (!body || Object.keys (body).length === 0) ...] *)
Definition read_body (req : request) : run value :=
  if negb (Js.truthy (body req)) || (keys_length (body req) =? 0)%nat
  then _ ← emit EvBodyListen; read_stream (stream req) EmptyString
  else mret (body req).

Definition user_prompt (answers : value) : string :=
  "User answers (JSON): " +:+ JSON_stringify answers +:+ "." +:+ nl +:+
  "Return JSON with keys:" +:+ nl +:+
  "- country: string (one of " +:+ dquote +:+ "Costa Rica" +:+ dquote +:+ "," +:+
    dquote +:+ "Panama" +:+ dquote +:+ "," +:+ dquote +:+ "Belize" +:+ dquote +:+ ")" +:+ nl +:+
  "- score: integer 0-100 (confidence)" +:+ nl +:+
  "- reasons: array of short strings (2-4)" +:+ nl +:+
  "- cities: array of { name: string, reason: string } (3 entries)" +:+ nl +:+
  "Keep outputs short and concise.".

Definition completion_request (key : string) (answers : value) : fetch_init :=
  FetchInit "POST"
    [ ("Authorization", "Bearer " +:+ key); ("Content-Type", "application/json") ]
    (JSON_stringify
       (JObj [ ("model", JStr "gpt-3.5-turbo");
               ("temperature", JNum (35 # 100));
               ("messages", JArr
                  [ JObj [ ("role", JStr "system"); ("content", JStr system_prompt) ];
                    JObj [ ("role", JStr "user"); ("content", JStr (user_prompt answers)) ] ]);
               ("max_tokens", JNum 400) ])).

Definition do_fetch (url : string) (init : fetch_init) : run upstream_response :=
  _ ← emit (EvFetch url init);
  match network w url init with
  | FetchRejects e => throw e
  | FetchResolves r => mret r
  | FetchPending => pending
  end.

(** [resp.text ()] *)
Definition resp_text (r : upstream_response) : run string :=
  match body_text r with
  | Some t => mret t
  | None => throw (IOError "body")
  end.

(** [resp.json ()] *)
Definition resp_json (r : upstream_response) : run value :=
  t ← resp_text r;
  match JSON_parse t with
  | Some v => mret v
  | None => throw SyntaxError
  end.

(** [j.choices?.[0]?.message?.content || ''] *)
Definition assistant_content (j : value) : run value :=
  choices ← get j "choices";
  c ← (if nullish choices then mret JUndefined
       else let first := get_first choices in
            if nullish first then mret JUndefined
            else message ← get first "message";
                 if nullish message then mret JUndefined
                 else get message "content");
  mret (if Js.truthy c then c else JStr EmptyString).

(** The inner [try] and its [catch]: parse from the first brace. *)
Definition relay_assistant (assistant : value) : run response :=
  try_catch
    (start ← js_indexOf assistant "{";
     jsonText ← (if (0 <=? start)%Z then js_slice assistant start else mret assistant);
     match JSON_parse (ToString jsonText) with
     | Some parsed => mret (Response 200 (Json parsed))
     | None => throw SyntaxError
     end)
    (λ _, mret (Response 200 (Json (JObj [ ("text", assistant) ])))).

(** The branch taken with a credential: the body of the outer [try]. *)
Definition relay_attempt (key : string) (answers : value) : run response :=
  resp ← do_fetch endpoint (completion_request key answers);
  if negb (ok resp) then
    txt ← resp_text resp;
    _ ← emit (EvConsoleError "OpenAI error:" (LogText txt));
    mret (Response 502 (Send "OpenAI API error"))
  else
    j ← resp_json resp;
    assistant ← assistant_content j;
    relay_assistant assistant.

(** The outer [try] with its [catch]. *)
Definition relay (key : string) (answers : value) : run response :=
  try_catch
    (relay_attempt key answers)
    (λ err,
       _ ← emit (EvConsoleError "Server error:" (LogExn err));
       mret (Response 500 (Send "Server error"))).

(** What follows the reading of the body. *)
Definition respond (answers : value) : run response :=
  OPENAI_KEY ← getApiKey;
  if negb (opt_truthy OPENAI_KEY) then fallback answers
  else relay (default EmptyString OPENAI_KEY) answers.

(** [module.exports] *)
Definition handler (req : request) : run response :=
  if negb (String.eqb (method req) "POST")
  then mret (Response 405 (Send "Method not allowed"))
  else
    body ← read_body req;
    a ← get body "answers";
    let answers := if Js.truthy a then a else JObj [] in
    respond answers.

End Handler.

End Recommend.

(** ** The navigation highlighters of [asset/shimmer.js] *)

Module Shimmer.
Import JsString.
#[local] Open Scope string_scope.

(** An element of the page: its attributes other than [class], the tokens
    of its class list, and whether [querySelector ('img')] and
    [querySelector ('svg')] find something below it. *)
Record element : Type := Element {
  attrs : gmap string string;
  classList : list string;
  contains_img : bool;
  contains_svg : bool
}.

(** The page: elements by identity, the node list of each selector, the
    path of the location, and the attributes of [document.body] ([None]
    when there is no body). *)
Record document : Type := Document {
  elements : gmap nat element;
  querySelectorAll : string → list nat;
  pathname : string;
  body_attrs : option (gmap string string)
}.

Inductive variant : Type :=
| FixedList     (* the first script: constant destination list *)
| DataDriven.   (* the second script: list read from the body *)

(** [Array.prototype.pop] after a [split]: the last piece. *)
Definition pop (pieces : list string) : string :=
  default EmptyString (last pieces).

(** [classList.add] and [classList.remove] *)
Definition classList_add (tok : string) (e : element) : element :=
  Element (attrs e)
          (if bool_decide (tok ∈ classList e) then classList e else classList e ++ [tok])
          (contains_img e) (contains_svg e).

Definition classList_remove (tok : string) (e : element) : element :=
  Element (attrs e)
          (filter (λ t, t ≠ tok) (classList e))
          (contains_img e) (contains_svg e).

Definition getAttribute (name : string) (e : element) : option string :=
  attrs e !! name.

Definition setAttribute (name v : string) (e : element) : element :=
  Element (<[name := v]> (attrs e)) (classList e) (contains_img e) (contains_svg e).

(** A [Map] from filenames to elements, in insertion order. *)
Definition anchor_map : Type := list (string * nat).

Fixpoint map_get (k : string) (m : anchor_map) : option nat :=
  match m with
  | [] => None
  | (k', v) :: r => if String.eqb k' k then Some v else map_get k r
  end.

Definition map_has (k : string) (m : anchor_map) : bool :=
  match map_get k m with Some _ => true | None => false end.

(** [Map.prototype.set]: a present key keeps its place and takes the new
    value; a new key goes last. *)
Fixpoint map_set (k : string) (v : nat) (m : anchor_map) : anchor_map :=
  match m with
  | [] => [(k, v)]
  | (k', v') :: r => if String.eqb k' k then (k, v) :: r else (k', v') :: map_set k v r
  end.

Definition destinationPages_fixed : list string :=
  [ "costarica.html"; "panama.html"; "belize.html" ].

Definition selectors (v : variant) : list string :=
  match v with
  | FixedList =>
      [ "header .max-w-7xl nav a[href$=" +:+ String "034" ".html" +:+ String "034" "]";
        "#siteMenu nav a[href$=" +:+ String "034" ".html" +:+ String "034" "]";
        "header a[href$=" +:+ String "034" ".html" +:+ String "034"
          ("]:not(#siteMenu a[href$=" +:+ String "034" ".html" +:+ String "034" "])") ]
  | DataDriven =>
      [ "header nav a[href$=" +:+ String "034" ".html" +:+ String "034" "]";
        "#siteMenu nav a[href$=" +:+ String "034" ".html" +:+ String "034" "]" ]
  end.

Section Page.
Variable d : document.

(** [(location.pathname.split ('/').pop () || 'index.html').toLowerCase ()] *)
Definition current : string :=
  let p := pop (split "/" (pathname d)) in
  toLowerCase (if truthy p then p else "index.html").

(** The destination list of the second script, from
    [<body data-destinations="...">]. *)
Definition destinationPages_data : list string :=
  let raw := match body_attrs d with
             | Some battrs =>
                 match battrs !! "data-destinations" with
                 | Some r => if truthy r then r else EmptyString
                 | None => EmptyString
                 end
             | None => EmptyString
             end in
  filter (λ s, truthy s = true)
         (map (λ s, toLowerCase (trim (if truthy s then s else EmptyString)))
              (split "," raw)).

Definition destinationPages (v : variant) : list string :=
  match v with
  | FixedList => destinationPages_fixed
  | DataDriven => destinationPages_data
  end.

(** The filename under which the callback of the inner [forEach] records
    node [a], or [None] when one of its guards returns first. *)
Definition filename_of (a : nat) : option string :=
  match elements d !! a with
  | None => None
  | Some e =>
      if contains_img e || contains_svg e then None
      else match getAttribute "href" e with
           | None => None
           | Some href =>
               if negb (truthy href) then None
               else let filename := toLowerCase (pop (split "/" href)) in
                    if negb (truthy filename) then None else Some filename
           end
  end.

(** The callback of the inner [forEach]: the first script always sets,
    the second only when the filename is not yet a key. *)
Definition visit (v : variant) (anchors : anchor_map) (a : nat) : anchor_map :=
  match filename_of a with
  | None => anchors
  | Some filename =>
      match v with
      | FixedList => map_set filename a anchors
      | DataDriven =>
          if negb (map_has filename anchors) then map_set filename a anchors
          else anchors
      end
  end.

(** [selectors.forEach (sel => document.querySelectorAll (sel).forEach (...))] *)
Definition collect (v : variant) : anchor_map :=
  foldl (λ anchors sel, foldl (visit v) anchors (querySelectorAll d sel))
        [] (selectors v).

(** The callback of [anchors.forEach], on the store of elements. *)
Definition apply_one (v : variant) (store : gmap nat element)
           (entry : string * nat) : gmap nat element :=
  let '(filename, anchor) := entry in
  match store !! anchor with
  | None => store
  | Some e =>
      if bool_decide (filename ∈ destinationPages v) && negb (String.eqb filename current)
      then
        let e1 := classList_add "shimmer" e in
        match v with
        | FixedList =>
            let t := match getAttribute "tabindex" e1 with
                     | Some t => if truthy t then t else "0"
                     | None => "0"
                     end in
            <[anchor := setAttribute "tabindex" t e1]> store
        | DataDriven => <[anchor := e1]> store
        end
      else <[anchor := classList_remove "shimmer" e]> store
  end.

Definition apply_all (v : variant) (anchors : anchor_map)
           (store : gmap nat element) : gmap nat element :=
  foldl (apply_one v) store anchors.

(** One run of a script: the anchors it recorded and the elements it
    leaves.  The second script returns at once on an empty list. *)
Definition recorded (v : variant) : anchor_map :=
  match v with
  | FixedList => collect FixedList
  | DataDriven =>
      if (length destinationPages_data =? 0)%nat then [] else collect DataDriven
  end.

Definition run_script (v : variant) : gmap nat element :=
  apply_all v (recorded v) (elements d).

End Page.

(** [window.__shimmerReapply], installed by the second script on page [d0]
    and called on page [d]: the list and the current page are those of
    [d0]. *)
Definition shimmerReapply (d0 d : document) : gmap nat element :=
  foldl (λ store entry,
           let '(filename, anchor) := entry in
           match store !! anchor with
           | None => store
           | Some e =>
               if bool_decide (filename ∈ destinationPages_data d0)
                  && negb (String.eqb filename (current d0))
               then <[anchor := classList_add "shimmer" e]> store
               else <[anchor := classList_remove "shimmer" e]> store
           end)
        (elements d) (collect d DataDriven).

End Shimmer.

(** ** A small runtime and sample inputs, to run the model on examples *)

Module Demo.
Import JsString Js Eff Recommend Shimmer.
#[local] Open Scope string_scope.

Definition is_json_space (c : ascii) : bool :=
  let n := nat_of_ascii c in ((n =? 32) || (n =? 9) || (n =? 10) || (n =? 13))%nat.

Fixpoint skip_space (s : string) : string :=
  match s with
  | String c r => if is_json_space c then skip_space r else s
  | EmptyString => EmptyString
  end.

(** The one-letter escapes of a string literal. *)
Definition unescape (c : ascii) : option ascii :=
  if Ascii.eqb c "034" then Some "034"%char
  else if Ascii.eqb c "\" then Some "\"%char
  else if Ascii.eqb c "/" then Some "/"%char
  else if Ascii.eqb c "n" then Some "010"%char
  else if Ascii.eqb c "t" then Some "009"%char
  else if Ascii.eqb c "r" then Some "013"%char
  else None.

(** The characters of a string literal up to its closing quote. *)
Fixpoint read_string (s : string) : option (string * string) :=
  match s with
  | EmptyString => None
  | String c r =>
      if Ascii.eqb c "034" then Some (EmptyString, r)
      else if (nat_of_ascii c <? 32)%nat then None
      else if Ascii.eqb c "\" then
        match r with
        | String e r' =>
            match unescape e, read_string r' with
            | Some u, Some (t, rest) => Some (String u t, rest)
            | _, _ => None
            end
        | EmptyString => None
        end
      else match read_string r with
           | Some (t, rest) => Some (String c t, rest)
           | None => None
           end
  end.

Definition digit_of (c : ascii) : option Z :=
  let n := nat_of_ascii c in
  if ((48 <=? n) && (n <=? 57))%nat then Some (Z.of_nat (n - 48)) else None.

Fixpoint read_digits (s : string) (acc : Z) : Z * string :=
  match s with
  | String c r =>
      match digit_of c with
      | Some k => read_digits r (10 * acc + k)
      | None => (acc, s)
      end
  | EmptyString => (acc, EmptyString)
  end.

(** Integers only: a fraction or an exponent is not read. *)
Definition read_number (s : string) : option (Q * string) :=
  let '(neg, digits) := match s with
                        | String "-" r => (true, r)
                        | _ => (false, s)
                        end in
  match digits with
  | String c r =>
      match digit_of c with
      | Some k =>
          let '(n, rest) := read_digits r k in
          match rest with
          | String "." _ | String "e" _ | String "E" _ => None
          | _ => if (k =? 0)%Z && negb (n =? 0)%Z then None
                 else Some (inject_Z (if neg then - n else n), rest)
          end
      | None => None
      end
  | EmptyString => None
  end.

(** A repeated member name keeps its place and takes the later value. *)
Fixpoint obj_set (k : string) (v : value) (fields : list (string * value))
  : list (string * value) :=
  match fields with
  | [] => [(k, v)]
  | (k', v') :: r => if String.eqb k' k then (k, v) :: r else (k', v') :: obj_set k v r
  end.

Fixpoint read_value (fuel : nat) (s : string) : option (value * string) :=
  match fuel with
  | O => None
  | S fuel =>
      match skip_space s with
      | String "{" r =>
          match skip_space r with
          | String "}" rest => Some (JObj [], rest)
          | _ => read_members fuel r []
          end
      | String "[" r =>
          match skip_space r with
          | String "]" rest => Some (JArr [], rest)
          | _ => read_items fuel r []
          end
      | String "034" r =>
          match read_string r with
          | Some (t, rest) => Some (JStr t, rest)
          | None => None
          end
      | String _ _ as s' =>
          if String.prefix "true" s' then Some (JBool true, drop_units 4 s')
          else if String.prefix "false" s' then Some (JBool false, drop_units 5 s')
          else if String.prefix "null" s' then Some (JNull, drop_units 4 s')
          else match read_number s' with
               | Some (q, rest) => Some (JNum q, rest)
               | None => None
               end
      | EmptyString => None
      end
  end
with read_members (fuel : nat) (s : string) (acc : list (string * value))
  : option (value * string) :=
  match fuel with
  | O => None
  | S fuel =>
      match skip_space s with
      | String "034" r =>
          match read_string r with
          | Some (k, rest) =>
              match skip_space rest with
              | String ":" rest =>
                  match read_value fuel rest with
                  | Some (v, rest) =>
                      match skip_space rest with
                      | String "," rest => read_members fuel rest (obj_set k v acc)
                      | String "}" rest => Some (JObj (obj_set k v acc), rest)
                      | _ => None
                      end
                  | None => None
                  end
              | _ => None
              end
          | None => None
          end
      | _ => None
      end
  end
with read_items (fuel : nat) (s : string) (acc : list value) : option (value * string) :=
  match fuel with
  | O => None
  | S fuel =>
      match read_value fuel s with
      | Some (v, rest) =>
          match skip_space rest with
          | String "," rest => read_items fuel rest (acc ++ [v])%list
          | String "]" rest => Some (JArr (acc ++ [v])%list, rest)
          | _ => None
          end
      | None => None
      end
  end.

(** A reader for the JSON texts made of objects, arrays, strings with
    one-letter escapes, integers and the three literals; it rejects every
    other text. *)
Definition parse (s : string) : option value :=
  match read_value (S (String.length s)) s with
  | Some (v, rest) => match skip_space rest with EmptyString => Some v | _ => None end
  | None => None
  end.

(** The least number of decimal places, up to [fuel] more than [k], that
    write a fraction of denominator [den] exactly. *)
Fixpoint decimal_places (fuel : nat) (den : Z) (k : nat) : option nat :=
  if (10 ^ Z.of_nat k mod den =? 0)%Z then Some k
  else match fuel with
       | O => None
       | S fuel => decimal_places fuel den (S k)
       end.

Fixpoint zeros (n : nat) : string :=
  match n with O => EmptyString | S n => String "0" (zeros n) end.

(** Numbers with a finite decimal expansion in decimal, the others as a
    quotient. *)
Definition print_number (q : Q) : string :=
  let den := Z.pos (Qden q) in
  match decimal_places 20 den 0 with
  | Some k =>
      let scaled := (Z.abs (Qnum q) * 10 ^ Z.of_nat k / den)%Z in
      let whole := NilZero.string_of_uint (N.to_uint (Z.to_N (scaled / 10 ^ Z.of_nat k))) in
      let part := NilZero.string_of_uint (N.to_uint (Z.to_N (scaled mod 10 ^ Z.of_nat k))) in
      (if (Qnum q <? 0)%Z then "-" else EmptyString) +:+ whole +:+
      match k with
      | O => EmptyString
      | _ => "." +:+ zeros (k - String.length part) +:+ part
      end
  | None =>
      NilZero.string_of_int (Z.to_int (Qnum q)) +:+ "/" +:+
      NilZero.string_of_uint (Pos.to_uint (Qden q))
  end.

Fixpoint escape (s : string) : string :=
  match s with
  | EmptyString => EmptyString
  | String c r =>
      if Ascii.eqb c "034" || Ascii.eqb c "\" then String "\" (String c (escape r))
      else String c (escape r)
  end.

Definition quoted (s : string) : string :=
  String "034" (escape s) +:+ String "034" EmptyString.

Fixpoint print (v : value) : string :=
  match v with
  | JUndefined | JNull => "null"
  | JBool b => if b then "true" else "false"
  | JNum q => print_number q
  | JStr s => quoted s
  | JArr items => "[" +:+ join_comma (map print items) +:+ "]"
  | JObj fields =>
      "{" +:+ join_comma (map (λ kv, quoted (fst kv) +:+ ":" +:+ print (snd kv)) fields) +:+ "}"
  end.

Definition runtime : Runtime :=
  {| JSON_parse := parse;
     JSON_stringify := print;
     Number_toString := print_number;
     JSON_parse_empty_object := eq_refl |}.

(** No environment variable, no file, no network. *)
Definition bare_world : world :=
  World ∅ ∅ (λ _ _, FetchRejects (IOError "offline")).

(** Both environment variables set, and an upstream that answers every
    call with [reply]. *)
Definition keyed_world (reply : fetch_result) : world :=
  World (<["OPENAI_API_KEY" := " sk-first "]> (<["OPEN_AI_KEY" := "sk-second"]> ∅))
        ∅ (λ _ _, reply).

(** Only a key file, named by OPEN_AI_KEY_FILE. *)
Definition file_world : world :=
  World (<["OPEN_AI_KEY_FILE" := "/etc/key"]> ∅)
        (<["/etc/key" := "sk-file" +:+ String "010" EmptyString]>
           (<["./OPEN_AI_KEY" := "   "]> ∅))
        (λ _ _, FetchRejects (IOError "offline")).

(** An upstream answer whose first choice has the given content. *)
Definition completion (content : string) : fetch_result :=
  FetchResolves
    (Upstream true
       (Some (print (JObj [ ("choices",
                             JArr [ JObj [ ("message",
                                            JObj [ ("role", JStr "assistant");
                                                   ("content", JStr content) ]) ] ]) ])))).

Definition prose_then_object : string :=
  "Here you go: {" +:+ quoted "country" +:+ ":" +:+ quoted "Belize" +:+ "}".

Definition link (href : string) : element :=
  Element (<["href" := href]> ∅) [ "nav-link" ] false false.

Definition logo (href : string) : element :=
  Element (<["href" := href]> ∅) [ "brand" ] true false.

Definition panel_selector : string :=
  "#siteMenu nav a[href$=" +:+ String "034" ".html" +:+ String "034" "]".

(** The three destination links and a logo in the header navigation, seen
    from panama.html. *)
Definition nav_page : document :=
  Document
    (<[1%nat := link "costarica.html"]>
       (<[2%nat := link "/pages/Panama.html"]>
          (<[3%nat := link "belize.html"]>
             (<[4%nat := logo "costarica.html"]> ∅))))
    (λ sel, if String.eqb sel panel_selector then [] else [4; 1; 2; 3]%nat)
    "/panama.html"
    (Some (<["data-destinations" := "costarica.html, panama.html,belize.html"]> ∅)).

(** Two links of the slide-over panel to the same page. *)
Definition duplicate_page : document :=
  Document
    (<[1%nat := link "costarica.html"]> (<[2%nat := link "costarica.html"]> ∅))
    (λ sel, if String.eqb sel panel_selector then [1; 2]%nat else [])
    "/index.html"
    (Some (<["data-destinations" := "costarica.html,panama.html,belize.html"]> ∅)).

End Demo.
(** ** Notions the properties are stated with *)

Module Spec.
Import JsString Js Eff Recommend Shimmer.
#[local] Open Scope string_scope.

(** [needle] occurs in [s] as a substring. *)
Definition occurs (needle s : string) : Prop :=
  ∃ pre post, s = pre +:+ needle +:+ post.

(** Reading a member of an object without effects ([undefined] on
    anything that is not an object holding it). *)
Definition field (v : value) (k : string) : value :=
  match v with
  | JObj fields => default JUndefined (assoc k fields)
  | _ => JUndefined
  end.

Definition countries : list string := [ "Costa Rica"; "Panama"; "Belize" ].

(** The member [choices[0].message.content] of an upstream answer,
    [undefined] when a step of the path is missing. *)
Definition content_path (j : value) : value :=
  field (field (get_first (field j "choices")) "message") "content".

(** The lookup table of the fallback cities, keyed by country: the nested
    conditionals of the [fallback] literal, tabulated. *)
Definition city_table : list (string * list string) :=
  [ ("Costa Rica", [ "San Jos" +:+ String "233" EmptyString; "Guanacaste"; "La Fortuna" ]);
    ("Panama", [ "Panama City"; "Boquete"; "David" ]);
    ("Belize", [ "Belize City"; "San Pedro"; "Caye Caulker" ]) ].

Fixpoint table_lookup (k : string) (t : list (string * list string)) : option (list string) :=
  match t with
  | [] => None
  | (k', row) :: r => if String.eqb k' k then Some row else table_lookup k r
  end.

(** The assistant text of an upstream answer: its content, or the empty
    string when the content is missing or falsy. *)
Definition assistant_of (j : value) : value :=
  if Js.truthy (content_path j) then content_path j else JStr EmptyString.

(** The reply that relays an assistant text: the parsed value, or the raw
    text under [text] when it did not parse. *)
Definition text_reply (raw : value) (parsed : option value) : run response :=
  Run [] (Done (Response 200 (Json (default (JObj [ ("text", raw) ]) parsed)))).

(** The reply of the fallback branch for a picked country. *)
Definition fallback_reply (pick : string) : outcome response :=
  Done (Response 200 (Json (fallback_object pick))).

(** A reply that carries a recommendation of the fallback kind: status
    200, score 75, one of the three countries, two reasons, and three
    cities named as the row of the country in [city_table]. *)
Definition fallback_shaped (resp : response) : Prop :=
  status resp = 200%Z
  ∧ ∃ pick names obj r1 r2 c1 c2 c3,
      pick ∈ countries
      ∧ table_lookup pick city_table = Some names
      ∧ sent resp = Json obj
      ∧ field obj "country" = JStr pick
      ∧ field obj "score" = JNum 75
      ∧ field obj "reasons" = JArr [JStr r1; JStr r2]
      ∧ field obj "cities" = JArr [c1; c2; c3]
      ∧ (λ c, field c "name") <$> [c1; c2; c3] = JStr <$> names.

(** The credential sources as the specification lists them: each is a
    trimmed non-empty string or nothing. *)
Definition nonblank (o : option string) : option string :=
  match o with
  | Some v => match trim v with EmptyString => None | t => Some t end
  | None => None
  end.

(** One credential source: the files it reads, and what it holds. *)
Record source : Type := Source {
  reads : list string;
  found : option string
}.

Definition env_source (w : world) (name : string) : source :=
  Source [] (nonblank (env w !! name)).

Definition file_source (w : world) (path : string) : source :=
  Source [path] (nonblank (files w !! path)).

(** The five sources, in the order of the specification. *)
Definition credential_sources (w : world) : list source :=
  [ env_source w "OPENAI_API_KEY";
    env_source w "OPEN_AI_KEY";
    match env w !! "OPEN_AI_KEY_FILE" with
    | Some (String c p) => file_source w (String c p)
    | _ => Source [] None
    end;
    file_source w "./OPEN_AI_KEY";
    file_source w "/run/secrets/OPEN_AI_KEY" ].

(** Checking sources in order and stopping at the first that holds
    something: the files read on the way, and the value found. *)
Fixpoint resolve (sources : list source) : list string * option string :=
  match sources with
  | [] => ([], None)
  | s :: r =>
      match found s with
      | Some k => (reads s, Some k)
      | None => let '(paths, k) := resolve r in ((reads s ++ paths)%list, k)
      end
  end.

(** The request stream delivers a body that is empty or does not parse,
    or fails. *)
Definition malformed_stream `{Runtime} (events : list stream_event) : Prop :=
  ∃ chunks rest,
    (events = (map Data chunks ++ End :: rest)%list ∧
     (foldl String.append EmptyString chunks = EmptyString ∨
      JSON_parse (foldl String.append EmptyString chunks) = None))
    ∨ events = (map Data chunks ++ Error :: rest)%list.

(** The platform handed over no parsed body: [req.body] is falsy or has
    no keys. *)
Definition no_parsed_body (req : request) : Prop :=
  Js.truthy (body req) = false ∨ keys_length (body req) = 0%nat.

(** [answers.relocationType] is absent, falsy or a string. *)
Definition relocation_absent_falsy_or_string (answers : value) : Prop :=
  Js.truthy (field answers "relocationType") = false
  ∨ ∃ s, field answers "relocationType" = JStr s.

Section Page.
Variable d : document.

(** An anchor map as the scan builds it: distinct keys, and every
    entry files an anchor under its own filename. *)
Definition well_filed (m : anchor_map) : Prop :=
  NoDup m.*1 ∧ ∀ f a, (f, a) ∈ m → filename_of d a = Some f.

(** What the callback of [anchors.forEach] makes of the element it is
    given. *)
Definition decorated (v : variant) (filename : string) (e : element) : element :=
  if bool_decide (filename ∈ destinationPages d v) && negb (String.eqb filename (current d))
  then match v with
       | FixedList =>
           setAttribute "tabindex"
             match getAttribute "tabindex" (classList_add "shimmer" e) with
             | Some t => if JsString.truthy t then t else "0"
             | None => "0"
             end
             (classList_add "shimmer" e)
       | DataDriven => classList_add "shimmer" e
       end
  else classList_remove "shimmer" e.

(** The nodes in the order the scan meets them, and among them those
    filed under [f]. *)
Definition scan (v : variant) : list nat :=
  concat (querySelectorAll d <$> selectors v).

Definition qualifying (v : variant) (f : string) : list nat :=
  filter (λ a, filename_of d a = Some f) (scan v).

End Page.

(** What a run may change on an element: nothing but the presence of
    "shimmer" in its class list and, in the first script, a [tabindex] of
    "0" put on an anchor that gets the class and had no [tabindex] (or an
    empty one). *)
Definition framed (v : variant) (e e' : element) : Prop :=
  contains_img e' = contains_img e
  ∧ contains_svg e' = contains_svg e
  ∧ filter (λ t, t ≠ "shimmer") (classList e') = filter (λ t, t ≠ "shimmer") (classList e)
  ∧ (attrs e' = attrs e
     ∨ (v = FixedList
        ∧ "shimmer" ∈ classList e'
        ∧ (attrs e !! "tabindex" = None ∨ attrs e !! "tabindex" = Some EmptyString)
        ∧ attrs e' = <["tabindex" := "0"]> (attrs e))).

End Spec.

(** ** Notions for the further properties *)

Module More.
Import JsString Js Eff Recommend Shimmer Spec.
#[local] Open Scope string_scope.

Definition is_console_error (ev : event) : bool :=
  match ev with EvConsoleError _ _ => true | _ => false end.

Definition is_fetch (ev : event) : bool :=
  match ev with EvFetch _ _ => true | _ => false end.

(** The answers the handler works with: [body.answers || {}]. *)
Definition answers_of (b : value) : value :=
  if Js.truthy (field b "answers") then field b "answers" else JObj [].

(** The request stream delivers chunks only: it neither ends nor fails. *)
Definition only_data (events : list stream_event) : Prop :=
  ∀ ev, ev ∈ events → ∃ c, ev = Data c.

(** The first and the last code unit of a string. *)
Definition first_unit (s : string) : option ascii :=
  match s with String c _ => Some c | EmptyString => None end.

Fixpoint last_unit (s : string) : option ascii :=
  match s with
  | EmptyString => None
  | String c EmptyString => Some c
  | String _ r => last_unit r
  end.

(** No white space at either end. *)
Definition clean_ends (s : string) : Prop :=
  (∀ c, first_unit s = Some c → is_white_space c = false)
  ∧ (∀ c, last_unit s = Some c → is_white_space c = false).

(** A page with other elements at the same nodes. *)
Definition with_elements (d : document) (store : gmap nat element) : document :=
  Document store (querySelectorAll d) (pathname d) (body_attrs d).

(** The page the re-invocation entry point works on: the elements and
    node lists of [d], the location and body attributes of [d0]. *)
Definition rebased (d0 d : document) : document :=
  Document (elements d) (querySelectorAll d) (pathname d0) (body_attrs d0).

(** The value of [data-destinations], or the empty string. *)
Definition raw_destinations (d : document) : string :=
  match body_attrs d with
  | Some battrs =>
      match battrs !! "data-destinations" with
      | Some r => r
      | None => EmptyString
      end
  | None => EmptyString
  end.

End More.
(** ** Facts about the string primitives *)

Module JsStringFacts.
Import JsString Spec.
#[local] Open Scope string_scope.

Lemma append_nil_l (s : string) : EmptyString +:+ s = s.
Proof. reflexivity. Qed.

Lemma append_cons (c : ascii) (a b : string) : String c a +:+ b = String c (a +:+ b).
Proof. reflexivity. Qed.

Ltac unfold_append := rewrite ?append_cons, ?append_nil_l in *.

Lemma append_EmptyString_r (s : string) : s +:+ EmptyString = s.
Proof. induction s as [|c s IH]; unfold_append; [done | by f_equal]. Qed.

Lemma append_assoc (a b c : string) : (a +:+ b) +:+ c = a +:+ b +:+ c.
Proof. induction a as [|x a IH]; unfold_append; [done | by f_equal]. Qed.

Lemma prefix_iff (needle s : string) :
  String.prefix needle s = true ↔ ∃ post, s = needle +:+ post.
Proof.
  revert needle. induction s as [|b s IH]; intros [|a needle]; simpl.
  - split; [by exists EmptyString | done].
  - split; [done | by intros [post Hp]].
  - split; [by eexists | done].
  - destruct (ascii_dec a b) as [->|Hne].
    + rewrite IH. split; intros [post Hp]; exists post; unfold_append; congruence.
    + split; [done | intros [post Hp]; unfold_append; congruence].
Qed.

Lemma includes_iff (needle s : string) :
  includes needle s = true ↔ occurs needle s.
Proof.
  unfold occurs. induction s as [|c s IH].
  - cbn [includes]. rewrite orb_false_r, prefix_iff. split.
    + intros [post Hp]. by exists EmptyString, post.
    + intros ([|x pre] & post & Hp); unfold_append; [by exists post | done].
  - cbn [includes]. rewrite orb_true_iff, IH, prefix_iff. split.
    + intros [[post Hp] | (pre & post & Hp)].
      * by exists EmptyString, post.
      * exists (String c pre), post. unfold_append. by rewrite Hp.
    + intros ([|x pre] & post & Hp); unfold_append.
      * left. by exists post.
      * right. exists pre, post. congruence.
Qed.

Lemma includes_false_iff (needle s : string) :
  includes needle s = false ↔ ¬ occurs needle s.
Proof. rewrite <- includes_iff. by destruct (includes needle s). Qed.

Lemma split_nonempty (sep : ascii) (s : string) : split sep s ≠ [].
Proof.
  induction s as [|c s IH]; simpl; [done |].
  destruct (Ascii.eqb c sep); [done |]. by destruct (split sep s).
Qed.

(** [pop] after [split] always finds a piece. *)
Lemma split_last (sep : ascii) (s : string) : is_Some (last (split sep s)).
Proof.
  destruct (split sep s) as [|h t] eqn:E; [by apply split_nonempty in E |].
  rewrite last_cons. destruct (last t); eauto.
Qed.

Lemma indexOf_from_shift (needle s : string) (i : Z) :
  indexOf_from needle s i =
  if (indexOf_from needle s 0 <? 0)%Z then (-1)%Z else (i + indexOf_from needle s 0)%Z.
Proof.
  revert i. induction s as [|c s IH]; intros i; cbn [indexOf_from].
  - destruct (String.prefix needle EmptyString); simpl; [lia | done].
  - destruct (String.prefix needle (String c s)); [simpl; lia |].
    rewrite (IH (i + 1)%Z), (IH (0 + 1)%Z).
    destruct (indexOf_from needle s 0 <? 0)%Z eqn:E; [done |].
    apply Z.ltb_ge in E.
    destruct (0 + 1 + indexOf_from needle s 0 <? 0)%Z eqn:E'; [apply Z.ltb_lt in E'; lia | lia].
Qed.

(** Without an occurrence, [indexOf] answers -1. *)
Lemma indexOf_absent (needle s : string) :
  ¬ occurs needle s → indexOf needle s = (-1)%Z.
Proof.
  rewrite <- includes_false_iff. unfold indexOf.
  induction s as [|c s IH]; cbn [includes indexOf_from].
  - rewrite orb_false_r. by intros ->.
  - intros [-> Hrest]%orb_false_iff.
    rewrite indexOf_from_shift, (IH Hrest). done.
Qed.

Lemma drop_units_append (pre s : string) :
  drop_units (String.length pre) (pre +:+ s) = s.
Proof.
  induction pre as [|x pre IH]; unfold_append; cbn [String.length drop_units];
    [by destruct s | done].
Qed.

(** With a first occurrence of a unit after [pre], [indexOf] answers the
    length of [pre], and [slice] from there keeps the unit and what
    follows. *)
Lemma indexOf_unit_first (c : ascii) (pre post : string) :
  ¬ occurs (String c EmptyString) pre →
  indexOf (String c EmptyString) (pre +:+ String c post) = Z.of_nat (String.length pre)
  ∧ slice (pre +:+ String c post) (Z.of_nat (String.length pre)) = String c post.
Proof.
  intros Hno. split.
  - unfold indexOf. induction pre as [|x pre IH]; unfold_append.
    + assert (String.prefix (String c EmptyString) (String c post) = true) as Hp
        by (apply prefix_iff; by exists post).
      cbn [indexOf_from]. by rewrite Hp.
    + cbn [indexOf_from].
      destruct (String.prefix (String c EmptyString) (String x (pre +:+ String c post))) eqn:E.
      * exfalso. apply Hno. apply prefix_iff in E as [q Hq]. unfold_append.
        injection Hq as -> _. by exists EmptyString, pre.
      * rewrite indexOf_from_shift, IH.
        -- destruct (Z.of_nat (String.length pre) <? 0)%Z eqn:E'; [apply Z.ltb_lt in E'; lia |].
           cbn [String.length]. lia.
        -- intros (a & b & Hab). apply Hno. exists (String x a), b. unfold_append.
           by rewrite Hab.
  - unfold slice. destruct (Z.of_nat (String.length pre) <? 0)%Z eqn:E; [apply Z.ltb_lt in E; lia |].
    rewrite Nat2Z.id. apply drop_units_append.
Qed.

End JsStringFacts.
(** ** Facts about the recommendation endpoint *)

Module RecommendFacts.
Import JsString Js Eff Recommend Spec JsStringFacts.

Lemma run_eta {A} (r : run A) : Run (trace r) (result r) = r.
Proof. by destruct r. Qed.

Lemma bind_done {A B} (m : run A) (f : A → run B) (a : A) :
  result m = Done a → m ≫= f = Run (trace m ++ trace (f a)) (result (f a)).
Proof. intros E. unfold mbind, run_bind. by rewrite E. Qed.

Lemma bind_pure {A B} (a : A) (f : A → run B) : Run [] (Done a) ≫= f = f a.
Proof. unfold mbind, run_bind. simpl. apply run_eta. Qed.

Lemma bind_mret {A B} (a : A) (f : A → run B) : mret a ≫= f = f a.
Proof. apply bind_pure. Qed.

Ltac run_simpl := rewrite ?bind_mret, ?bind_pure.

Lemma tryReadFileSync_eq (w : world) (path : string) :
  tryReadFileSync w path = Run [EvReadFile path] (Done (nonblank (files w !! path))).
Proof.
  unfold tryReadFileSync, readFileSync, try_catch, mbind, run_bind, emit, mret, run_ret, throw.
  destruct (files w !! path) as [content|]; simpl; [| done].
  unfold nonblank. by destruct (trim content).
Qed.

Lemma set_and_nonblank_found (o : option string) :
  set_and_nonblank o = true → nonblank o = trim <$> o ∧ is_Some (nonblank o).
Proof.
  destruct o as [v|]; simpl; [| done].
  intros [_ Ht]%andb_true_iff. destruct (trim v); [done | eauto].
Qed.

Lemma set_and_nonblank_missing (o : option string) :
  set_and_nonblank o = false → nonblank o = None.
Proof.
  destruct o as [v|]; simpl; [| done].
  destruct v as [|c v]; [done |]. simpl. by destruct (trim (String c v)).
Qed.

Lemma nonblank_truthy (o : option string) (k : string) :
  nonblank o = Some k → JsString.truthy k = true.
Proof.
  destruct o as [v|]; simpl; [| done]. destruct (trim v); [done |]. by intros [= <-].
Qed.

Lemma getApiKey_resolve (w : world) :
  getApiKey w =
  Run (EvReadFile <$> (resolve (credential_sources w)).1)
      (Done (resolve (credential_sources w)).2).
Proof.
  unfold getApiKey, credential_sources. cbn [resolve env_source file_source found reads].
  destruct (set_and_nonblank (env w !! "OPENAI_API_KEY")) eqn:E1.
  { apply set_and_nonblank_found in E1 as [E1 [k Hk]]. rewrite Hk. simpl. by rewrite <- E1, Hk. }
  apply set_and_nonblank_missing in E1. rewrite E1.
  destruct (set_and_nonblank (env w !! "OPEN_AI_KEY")) eqn:E2.
  { apply set_and_nonblank_found in E2 as [E2 [k Hk]]. rewrite Hk. simpl. by rewrite <- E2, Hk. }
  apply set_and_nonblank_missing in E2. rewrite E2.
  rewrite !tryReadFileSync_eq.
  unfold file_source, mbind, run_bind, mret, run_ret.
  destruct (env w !! "OPEN_AI_KEY_FILE") as [[|c p]|]; cbn [opt_truthy JsString.truthy default found reads trace result];
    repeat (match goal with
            | |- context [nonblank ?o] =>
                let E := fresh "E" in
                destruct (nonblank o) as [?|] eqn:E;
                [apply nonblank_truthy in E as ?|]
            end; cbn [opt_truthy trace result found reads fst snd]; simplify_eq/=;
            repeat match goal with H : JsString.truthy _ = true |- _ => rewrite H; clear H end);
    done.
Qed.

Lemma getApiKey_done (w : world) : ∃ k, result (getApiKey w) = Done k.
Proof. rewrite getApiKey_resolve. eauto. Qed.

Lemma resolve_found (l : list source) (k : string) :
  (resolve l).2 = Some k → ∃ s, s ∈ l ∧ found s = Some k.
Proof.
  induction l as [|s l IH]; cbn [resolve]; [done |].
  destruct (found s) as [k0|] eqn:Ef.
  - intros [= ->]. exists s. split; [left | done].
  - destruct (resolve l) as [paths k0]. cbn [snd] in *. intros E.
    destruct (IH E) as (s0 & Hin & Hf). exists s0. split; [by right | done].
Qed.

Lemma credential_sources_nonblank (w : world) (s : source) :
  s ∈ credential_sources w → ∃ o, found s = nonblank o.
Proof.
  unfold credential_sources. rewrite !elem_of_cons, elem_of_nil.
  intros [-> | [-> | [-> | [-> | [-> | []]]]]]; cbn; eauto.
  destruct (env w !! "OPEN_AI_KEY_FILE") as [[|c p]|]; cbn; eauto.
  all: by exists None.
Qed.

Lemma getApiKey_truthy (w : world) (k : string) :
  result (getApiKey w) = Done (Some k) → JsString.truthy k = true.
Proof.
  rewrite getApiKey_resolve. cbn [result]. intros E0.
  assert ((resolve (credential_sources w)).2 = Some k) as E by congruence.
  apply resolve_found in E as (s & Hin & Hf).
  apply credential_sources_nonblank in Hin as [o Ho].
  rewrite Ho in Hf. by apply nonblank_truthy in Hf.
Qed.

(** [respond] after the credential lookup. *)
Lemma respond_unfold `{Runtime} (w : world) (answers : value) (k : option string) :
  result (getApiKey w) = Done k →
  respond w answers =
  let next := match k with
              | Some key => relay w key answers
              | None => fallback answers
              end in
  Run (trace (getApiKey w) ++ trace next) (result next).
Proof.
  intros E. unfold respond. rewrite (bind_done _ _ _ E).
  destruct k as [key|]; cbn [opt_truthy negb default]; [| done].
  by rewrite (getApiKey_truthy _ _ E).
Qed.

Lemma is_string_iff (lit : string) (v : value) : is_string lit v = true ↔ v = JStr lit.
Proof.
  destruct v; cbn; try (split; [done | congruence]).
  rewrite String.eqb_eq. split; congruence.
Qed.

Lemma array_includes_iff (items : list value) (lit : string) :
  array_includes items lit = true ↔ JStr lit ∈ items.
Proof.
  unfold array_includes. induction items as [|v items IH]; cbn [existsb].
  - rewrite elem_of_nil. split; [done | tauto].
  - rewrite orb_true_iff, IH, is_string_iff, elem_of_cons. split; intros [?|?]; auto.
Qed.

Lemma array_includes_false_iff (items : list value) (lit : string) :
  array_includes items lit = false ↔ JStr lit ∉ items.
Proof. rewrite <- array_includes_iff. by destruct (array_includes items lit). Qed.

Lemma get_truthy (v : value) (k : string) :
  Js.truthy v = true → get v k = Run [] (Done (field v k)).
Proof. by destruct v. Qed.

(** The pick, as a pure function of the two members it reads. *)
Lemma fallback_pick_unfold (answers : value) :
  Js.truthy answers = true →
  fallback_pick answers =
  let dests := normalise_destinations (field answers "destinations") in
  let r := field answers "relocationType" in
  if array_includes dests "panama" then Run [] (Done "Panama")
  else if array_includes dests "belize" then Run [] (Done "Belize")
  else if Js.truthy r then
    match r with
    | JStr s => Run [] (Done (if includes "work" s then "Panama" else "Costa Rica"))
    | JArr items => Run [] (Done (if array_includes items "work" then "Panama" else "Costa Rica"))
    | _ => Run [] (Threw TypeError)
    end
  else Run [] (Done "Costa Rica").
Proof.
  intros Ht. unfold fallback_pick. rewrite !(get_truthy _ _ Ht), !bind_pure.
  cbv zeta.
  destruct (array_includes _ "panama"); [done |].
  destruct (array_includes _ "belize"); [done |].
  destruct (field answers "relocationType") as [| |b|q|s|items|fields] eqn:Er; cbn [Js.truthy].
  all: try done.
  - by destruct b.
  - destruct (negb (Qeq_bool q 0)) eqn:E; cbn [Js.truthy]; rewrite ?E; done.
  - destruct (JsString.truthy s) eqn:E; cbn [Js.truthy]; rewrite ?E; done.
Qed.

Lemma fallback_unfold (answers : value) :
  fallback answers =
  match result (fallback_pick answers) with
  | Done pick => Run (trace (fallback_pick answers)) (fallback_reply pick)
  | Threw e => Run (trace (fallback_pick answers)) (Threw e)
  | Pending => Run (trace (fallback_pick answers)) Pending
  end.
Proof.
  unfold fallback, mbind, run_bind. destruct (result (fallback_pick answers)); [| done..].
  cbn. by rewrite app_nil_r.
Qed.

Lemma respond_no_credential `{Runtime} (w : world) (answers : value) :
  result (getApiKey w) = Done None →
  result (respond w answers) = result (fallback answers).
Proof. intros E. by rewrite (respond_unfold _ _ _ E). Qed.

(** C1. When no credential resolves, the country of the reply follows the
    override chain in its fixed order: "Panama" when the normalised
    destination list holds "panama"; otherwise "Belize" when it holds
    "belize"; otherwise "Panama" when the relocation text contains "work";
    otherwise the default "Costa Rica".  A list holding both "panama" and
    "belize" therefore yields "Panama", whatever their order. *)
Theorem fallback_pick_override_chain `{Runtime} (w : world) (answers : value) :
  Js.truthy answers = true →
  result (getApiKey w) = Done None →
  let dests := normalise_destinations (field answers "destinations") in
  let relocation := field answers "relocationType" in
  (JStr "panama" ∈ dests → result (respond w answers) = fallback_reply "Panama")
  ∧ (JStr "panama" ∉ dests → JStr "belize" ∈ dests →
     result (respond w answers) = fallback_reply "Belize")
  ∧ (JStr "panama" ∉ dests → JStr "belize" ∉ dests →
     ∀ s, relocation = JStr s → occurs "work" s →
     result (respond w answers) = fallback_reply "Panama")
  ∧ (JStr "panama" ∉ dests → JStr "belize" ∉ dests →
     (Js.truthy relocation = false ∨ ∃ s, relocation = JStr s ∧ ¬ occurs "work" s) →
     result (respond w answers) = fallback_reply "Costa Rica").
Proof.
  intros Ht Hk dests relocation.
  rewrite (respond_no_credential _ _ Hk), fallback_unfold, (fallback_pick_unfold _ Ht).
  cbv zeta. fold dests relocation.
  repeat split.
  - intros Hp%array_includes_iff. by rewrite Hp.
  - intros Hp%array_includes_false_iff Hb%array_includes_iff. by rewrite Hp, Hb.
  - intros Hp%array_includes_false_iff Hb%array_includes_false_iff s Hs Hw%includes_iff.
    rewrite Hp, Hb, Hs. cbn [Js.truthy].
    destruct (JsString.truthy s) eqn:Es; [by rewrite Hw |].
    destruct s; [by cbn in Hw | done].
  - intros Hp%array_includes_false_iff Hb%array_includes_false_iff Hr.
    rewrite Hp, Hb. destruct Hr as [Hf | (s & Hs & Hw%includes_false_iff)].
    + by rewrite Hf.
    + rewrite Hs. cbn [Js.truthy]. destruct (JsString.truthy s); [by rewrite Hw | done].
Qed.

Ltac pick_found := left; eexists; split; [| done]; set_solver.

(** The pick is one of the three countries, or the evaluation throws. *)
Lemma fallback_pick_cases (answers : value) :
  Js.truthy answers = true →
  (∃ pick, pick ∈ countries ∧ fallback_pick answers = Run [] (Done pick))
  ∨ fallback_pick answers = Run [] (Threw TypeError).
Proof.
  intros Ht. rewrite (fallback_pick_unfold _ Ht). cbv zeta. unfold countries.
  destruct (array_includes _ "panama"); [pick_found |].
  destruct (array_includes _ "belize"); [pick_found |].
  destruct (field answers "relocationType") as [| |b|q|s|items|fields]; cbn [Js.truthy].
  - pick_found.
  - pick_found.
  - destruct b; [by right | pick_found].
  - destruct (negb (Qeq_bool q 0)); [by right | pick_found].
  - destruct (JsString.truthy s), (includes "work" s); pick_found.
  - destruct (array_includes items "work"); pick_found.
  - by right.
Qed.

Lemma fallback_object_shape (pick : string) (names : list string) :
  table_lookup pick city_table = Some names →
  ∃ r1 r2 c1 c2 c3,
    field (fallback_object pick) "country" = JStr pick
    ∧ field (fallback_object pick) "score" = JNum 75
    ∧ field (fallback_object pick) "reasons" = JArr [JStr r1; JStr r2]
    ∧ field (fallback_object pick) "cities" = JArr [c1; c2; c3]
    ∧ (λ c, field c "name") <$> [c1; c2; c3] = JStr <$> names.
Proof.
  intros Hrow. do 5 eexists. repeat split.
  cbn [table_lookup city_table] in Hrow. cbn.
  destruct (String.eqb "Costa Rica" pick) eqn:E1.
  { apply String.eqb_eq in E1 as <-. by injection Hrow as <-. }
  destruct (String.eqb "Panama" pick) eqn:E2.
  { apply String.eqb_eq in E2 as <-. by injection Hrow as <-. }
  destruct (String.eqb "Belize" pick) eqn:E3; [| done].
  apply String.eqb_eq in E3 as <-. by injection Hrow as <-.
Qed.

(** C3. Whatever the answers, the reply of the fallback branch has status
    200 and carries a recommendation whose score is 75, whose country is
    one of "Costa Rica", "Panama" and "Belize", with two reasons and three
    cities named as the row of that country in the table of cities. *)
Theorem fallback_recommendation_shape (answers : value) (resp : response) :
  Js.truthy answers = true →
  result (fallback answers) = Done resp →
  fallback_shaped resp.
Proof.
  unfold fallback_shaped. intros Ht. rewrite fallback_unfold.
  destruct (fallback_pick_cases _ Ht) as [(pick & Hin & ->) | ->]; cbn [result]; [| done].
  intros [= <-]. split; [done |].
  assert (∃ names, table_lookup pick city_table = Some names) as [names Hrow].
  { unfold countries in Hin. rewrite !elem_of_cons, elem_of_nil in Hin.
    destruct Hin as [-> | [-> | [-> | []]]]; cbn; eauto. }
  destruct (fallback_object_shape _ _ Hrow) as (r1 & r2 & c1 & c2 & c3 & ? & ? & ? & ? & ?).
  exists pick, names, (fallback_object pick), r1, r2, c1, c2, c3. by repeat split.
Qed.

(** C10. With [relocationType] absent, falsy or a string, the fallback
    branch ends with a 200 reply for one of the three countries, whatever
    [destinations] is.  The hypothesis cannot be dropped: when the
    destination list holds neither "panama" nor "belize", a truthy
    [relocationType] that is a number, a boolean or an object makes the
    branch throw a TypeError, since [includes] is called on it as it is. *)
Theorem fallback_total_for_text_relocation (answers : value) :
  Js.truthy answers = true →
  (relocation_absent_falsy_or_string answers →
   ∃ pick, pick ∈ countries ∧ fallback answers = Run [] (fallback_reply pick))
  ∧ (let dests := normalise_destinations (field answers "destinations") in
     let relocation := field answers "relocationType" in
     JStr "panama" ∉ dests → JStr "belize" ∉ dests →
     Js.truthy relocation = true →
     (∀ s, relocation ≠ JStr s) → isArray relocation = false →
     fallback answers = Run [] (Threw TypeError)).
Proof.
  intros Ht. split.
  - intros Hr. rewrite fallback_unfold.
    destruct (fallback_pick_cases _ Ht) as [(pick & Hin & ->) | Hthrow]; [by exists pick |].
    exfalso. rewrite (fallback_pick_unfold _ Ht) in Hthrow. cbv zeta in Hthrow.
    destruct (array_includes _ "panama"); [done |].
    destruct (array_includes _ "belize"); [done |].
    destruct Hr as [Hf | [s Hs]].
    + by rewrite Hf in Hthrow.
    + rewrite Hs in Hthrow. by destruct (Js.truthy (JStr s)).
  - intros dests relocation Hp%array_includes_false_iff Hb%array_includes_false_iff Hr Hs Ha.
    rewrite fallback_unfold, (fallback_pick_unfold _ Ht). cbv zeta.
    fold dests relocation. rewrite Hp, Hb, Hr.
    destruct relocation; try done. by destruct (Hs s).
Qed.

Lemma resolve_none (l : list source) :
  (resolve l).2 = None ↔ ∀ s, s ∈ l → found s = None.
Proof.
  induction l as [|s l IH]; cbn [resolve].
  - split; [intros _ s Hs; by apply elem_of_nil in Hs | done].
  - destruct (found s) as [k|] eqn:Ef.
    + split; [done |]. intros Hall. rewrite <- Ef. apply Hall. by left.
    + destruct (resolve l) as [paths k]. cbn [snd] in *. rewrite IH. split.
      * intros Hall s0 [-> | Hin]%elem_of_cons; auto.
      * intros Hall s0 Hin. apply Hall. by right.
Qed.

(** C2. The credential is the first of the five sources, in their order,
    that holds a non-empty trimmed value: the two environment variables,
    then the file named by OPEN_AI_KEY_FILE, then ./OPEN_AI_KEY, then
    /run/secrets/OPEN_AI_KEY; files after the one that succeeds are not
    read, and nothing is returned when every source fails.  A set
    OPENAI_API_KEY wins whatever OPEN_AI_KEY holds, and a file that cannot
    be read or holds only white space counts as not found. *)
Theorem getApiKey_priority (w : world) :
  getApiKey w =
    Run (EvReadFile <$> (resolve (credential_sources w)).1)
        (Done (resolve (credential_sources w)).2)
  ∧ (∀ k, found (env_source w "OPENAI_API_KEY") = Some k →
          getApiKey w = Run [] (Done (Some k)))
  ∧ (∀ k, result (getApiKey w) = Done (Some k) →
          k ≠ EmptyString ∧ ∃ s, s ∈ credential_sources w ∧ found s = Some k)
  ∧ (result (getApiKey w) = Done None ↔
     ∀ s, s ∈ credential_sources w → found s = None)
  ∧ (∀ path,
       files w !! path = None
       ∨ (∃ content, files w !! path = Some content ∧ trim content = EmptyString) →
       tryReadFileSync w path = Run [EvReadFile path] (Done None)).
Proof.
  split; [apply getApiKey_resolve |]. split; [| split; [| split]].
  - intros k Hk. rewrite getApiKey_resolve. unfold credential_sources. cbn [resolve].
    by rewrite Hk.
  - intros k Hk. split.
    + apply getApiKey_truthy in Hk. by destruct k.
    + rewrite getApiKey_resolve in Hk. cbn [result] in Hk.
      apply resolve_found. congruence.
  - rewrite getApiKey_resolve. cbn [result]. rewrite <- resolve_none.
    split; [intros E; congruence | by intros ->].
  - intros path Hp. rewrite tryReadFileSync_eq.
    destruct Hp as [-> | (content & -> & Hc)]; [done |]. cbn. by rewrite Hc.
Qed.

Lemma get_eq (v : value) (k : string) :
  get v k = if nullish v then Run [] (Threw TypeError) else Run [] (Done (field v k)).
Proof. by destruct v. Qed.

Lemma content_of_first (first : value) :
  (if nullish first then mret JUndefined
   else message ← get first "message";
        if nullish message then mret JUndefined else get message "content")
  = Run [] (Done (field (field first "message") "content")).
Proof.
  rewrite get_eq. destruct (nullish first) eqn:En; [by destruct first |].
  run_simpl. rewrite get_eq.
  destruct (nullish (field first "message")) eqn:Em; [| done].
  by destruct (field first "message").
Qed.

Lemma assistant_content_eq (j : value) :
  assistant_content j =
  if nullish j then Run [] (Threw TypeError)
  else Run [] (Done (if Js.truthy (content_path j) then content_path j else JStr EmptyString)).
Proof.
  unfold assistant_content, content_path. rewrite get_eq.
  destruct (nullish j); [done |]. run_simpl.
  destruct (nullish (field j "choices")) eqn:En.
  - run_simpl. by destruct (field j "choices").
  - cbv zeta. rewrite content_of_first. by run_simpl.
Qed.

Lemma relay_assistant_string `{Runtime} (s : string) :
  relay_assistant (JStr s) =
  text_reply (JStr s)
    (JSON_parse (if (0 <=? indexOf "{" s)%Z then slice s (indexOf "{" s) else s)).
Proof.
  unfold relay_assistant, text_reply, try_catch. cbn [js_indexOf]. run_simpl.
  destruct (0 <=? indexOf "{" s)%Z; cbn [js_slice]; run_simpl; cbn [ToString];
    by destruct (JSON_parse _).
Qed.

Lemma relay_assistant_done `{Runtime} (assistant : value) :
  ∃ v, relay_assistant assistant = Run [] (Done (Response 200 (Json v))).
Proof.
  unfold relay_assistant, try_catch.
  destruct assistant as [| |b|q|s|items|fields]; cbn [js_indexOf]; try (by eexists).
  - run_simpl.
    destruct (0 <=? indexOf "{" s)%Z; cbn [js_slice]; run_simpl;
      destruct (JSON_parse _); by eexists.
  - run_simpl.
    destruct (0 <=? _)%Z; cbn [js_slice]; run_simpl;
      destruct (JSON_parse _); by eexists.
Qed.

(** The body of the outer [try], case by case. *)
Lemma relay_attempt_eq `{Runtime} (w : world) (key : string) (answers : value) :
  relay_attempt w key answers =
  let init := completion_request key answers in
  match network w endpoint init with
  | FetchRejects e => Run [EvFetch endpoint init] (Threw e)
  | FetchResolves resp =>
      match body_text resp with
      | None => Run [EvFetch endpoint init] (Threw (IOError "body"))
      | Some t =>
          if ok resp then
            match JSON_parse t with
            | None => Run [EvFetch endpoint init] (Threw SyntaxError)
            | Some j =>
                if nullish j then Run [EvFetch endpoint init] (Threw TypeError)
                else Run [EvFetch endpoint init] (result (relay_assistant (assistant_of j)))
            end
          else Run [EvFetch endpoint init; EvConsoleError "OpenAI error:" (LogText t)]
                   (Done (Response 502 (Send "OpenAI API error")))
      end
  | FetchPending => Run [EvFetch endpoint init] Pending
  end.
Proof.
  unfold relay_attempt, do_fetch, resp_json, resp_text, emit, throw, pending. cbv zeta.
  unfold mbind, run_bind, mret, run_ret.
  destruct (network w endpoint _) as [e | resp |]; cbn [result trace app]; [done | | done].
  destruct (ok resp), (body_text resp) as [t|]; cbn [negb result trace app]; try done.
  destruct (JSON_parse t) as [j|]; cbn [result trace app]; [| done].
  rewrite assistant_content_eq. fold (assistant_of j).
  destruct (nullish j); cbn [result trace app]; [done |].
  destruct (relay_assistant_done (assistant_of j)) as [v ->]. done.
Qed.

Lemma relay_unfold `{Runtime} (w : world) (key : string) (answers : value) :
  relay w key answers =
  match result (relay_attempt w key answers) with
  | Threw e => Run (trace (relay_attempt w key answers)
                      ++ [EvConsoleError "Server error:" (LogExn e)])
                   (Done (Response 500 (Send "Server error")))
  | _ => relay_attempt w key answers
  end.
Proof. unfold relay, try_catch. by destruct (result (relay_attempt w key answers)). Qed.

(** The relay replies with 200, 502 or 500, unless the upstream call
    never settles; it never throws. *)
Lemma relay_outcome `{Runtime} (w : world) (key : string) (answers : value) :
  (∃ resp, result (relay w key answers) = Done resp
           ∧ (status resp = 200 ∨ status resp = 502 ∨ status resp = 500)%Z)
  ∨ (result (relay w key answers) = Pending
     ∧ network w endpoint (completion_request key answers) = FetchPending).
Proof.
  rewrite relay_unfold, relay_attempt_eq. cbv zeta.
  destruct (network w endpoint _) as [e | resp |]; [left; cbn; eauto | | by right].
  left. destruct (body_text resp) as [t|]; [| cbn; eauto].
  destruct (ok resp); [| cbn; eauto].
  destruct (JSON_parse t) as [j|]; [| cbn; eauto].
  destruct (nullish j); [cbn; eauto |].
  destruct (relay_assistant_done (assistant_of j)) as [v ->]. cbn. eauto.
Qed.

Lemma fallback_done_status (answers : value) (resp : response) :
  result (fallback answers) = Done resp → status resp = 200%Z.
Proof.
  rewrite fallback_unfold. destruct (result (fallback_pick answers)); cbn; [| done..].
  by intros [= <-].
Qed.

Lemma respond_done_status `{Runtime} (w : world) (answers : value) (resp : response) :
  result (respond w answers) = Done resp →
  (status resp = 200 ∨ status resp = 502 ∨ status resp = 500)%Z.
Proof.
  destruct (getApiKey_done w) as [k Hk]. rewrite (respond_unfold _ _ _ Hk). cbv zeta.
  cbn [result]. destruct k as [key|].
  - destruct (relay_outcome w key answers) as [(r & -> & Hr) | [-> _]]; [| done].
    by intros [= <-].
  - intros E%fallback_done_status. auto.
Qed.

(** C4. With a successful upstream answer whose content is a string, the
    text handed to the JSON parser starts at the first opening brace of
    the content, or is the whole content when it has none; the reply is
    200 with the parsed value as it is when parsing succeeds, and 200 with
    the raw content under [text] when it fails.  A content that is missing
    from the upstream answer is handled as the empty string. *)
Theorem assistant_parsed_from_first_brace `{Runtime}
    (w : world) (key : string) (answers : value)
    (resp : upstream_response) (t : string) (j : value) :
  network w endpoint (completion_request key answers) = FetchResolves resp →
  ok resp = true → body_text resp = Some t → JSON_parse t = Some j → nullish j = false →
  let reply raw parsed :=
    Done (Response 200 (Json (default (JObj [ ("text", JStr raw) ]) parsed))) in
  (∀ pre rest, content_path j = JStr (pre +:+ "{" +:+ rest) → ¬ occurs "{" pre →
     result (relay w key answers)
     = reply (pre +:+ "{" +:+ rest) (JSON_parse ("{" +:+ rest)))
  ∧ (∀ s, content_path j = JStr s → ¬ occurs "{" s →
     result (relay w key answers) = reply s (JSON_parse s))
  ∧ (nullish (content_path j) = true →
     result (relay w key answers) = reply EmptyString (JSON_parse EmptyString)).
Proof.
  intros Hnet Hok Hbody Hparse Hj reply.
  assert (∀ s, assistant_of j = JStr s →
            result (relay w key answers)
            = reply s (JSON_parse (if (0 <=? indexOf "{" s)%Z
                                   then slice s (indexOf "{" s) else s))) as Hrelay.
  { intros s Hs. rewrite relay_unfold, relay_attempt_eq. cbv zeta.
    rewrite Hnet, Hbody, Hok, Hparse, Hj, Hs, relay_assistant_string. done. }
  split; [| split].
  - intros pre rest Hc Hno.
    assert (assistant_of j = JStr (pre +:+ "{" +:+ rest)) as Hs.
    { unfold assistant_of. rewrite Hc. cbn [Js.truthy].
      destruct (pre +:+ "{" +:+ rest) eqn:E; [| done]. by destruct pre. }
    rewrite (Hrelay _ Hs).
    destruct (indexOf_unit_first "{" pre rest Hno) as [E1 E2].
    change (String "{" rest) with ("{" +:+ rest) in E1, E2. rewrite E1, E2.
    destruct (0 <=? Z.of_nat (String.length pre))%Z eqn:E; [done |].
    apply Z.leb_gt in E. lia.
  - intros s Hc Hno.
    assert (assistant_of j = JStr s) as Hs.
    { unfold assistant_of. rewrite Hc. cbn [Js.truthy]. by destruct s. }
    by rewrite (Hrelay _ Hs), (indexOf_absent _ _ Hno).
  - intros Hn.
    assert (assistant_of j = JStr EmptyString) as Hs.
    { unfold assistant_of. by destruct (content_path j). }
    by rewrite (Hrelay _ Hs).
Qed.

(** C5. With a credential, an upstream answer that is not a success gives
    502 with the fixed text "OpenAI API error", whatever the upstream body
    says (it only goes to the log); an exception thrown during the
    upstream call gives 500 with the fixed text "Server error".  A
    rejected call, and an answer whose body cannot be read, are such
    exceptions. *)
Theorem upstream_failure_status `{Runtime} (w : world) (key : string) (answers : value) :
  result (getApiKey w) = Done (Some key) →
  let init := completion_request key answers in
  (∀ resp txt,
     network w endpoint init = FetchResolves resp → ok resp = false →
     body_text resp = Some txt →
     respond w answers =
     Run (trace (getApiKey w)
            ++ [EvFetch endpoint init; EvConsoleError "OpenAI error:" (LogText txt)])
         (Done (Response 502 (Send "OpenAI API error"))))
  ∧ (∀ e, result (relay_attempt w key answers) = Threw e →
     respond w answers =
     Run (trace (getApiKey w) ++ trace (relay_attempt w key answers)
            ++ [EvConsoleError "Server error:" (LogExn e)])
         (Done (Response 500 (Send "Server error"))))
  ∧ (∀ e, network w endpoint init = FetchRejects e →
     relay_attempt w key answers = Run [EvFetch endpoint init] (Threw e))
  ∧ (∀ resp, network w endpoint init = FetchResolves resp → body_text resp = None →
     relay_attempt w key answers = Run [EvFetch endpoint init] (Threw (IOError "body"))).
Proof.
  intros Hk init. rewrite (respond_unfold _ _ _ Hk). cbv zeta.
  rewrite relay_unfold, relay_attempt_eq. cbv zeta. fold init.
  repeat split.
  - intros resp txt -> Hok ->. by rewrite Hok.
  - intros e He. by rewrite He.
  - by intros e ->.
  - by intros resp -> ->.
Qed.

Lemma read_stream_chunks `{Runtime} (chunks : list string) (rest : list stream_event)
    (d : string) (ev : stream_event) :
  (∀ c, ev ≠ Data c) →
  read_stream (map Data chunks ++ ev :: rest) d
  = read_stream (ev :: rest) (foldl String.append d chunks).
Proof.
  intros Hev. revert d. induction chunks as [|c chunks IH]; intros d; [done |].
  cbn [map app foldl read_stream]. apply IH.
Qed.

Lemma read_stream_malformed `{Runtime} (events : list stream_event) :
  malformed_stream events → read_stream events EmptyString = Run [] (Done (JObj [])).
Proof.
  intros (chunks & rest & [[-> Hd] | ->]); rewrite read_stream_chunks by done;
    cbn [read_stream]; [| done].
  destruct Hd as [-> | Hd].
  - cbn [JsString.truthy]. by rewrite JSON_parse_empty_object.
  - destruct (foldl String.append EmptyString chunks) as [|c d] eqn:E.
    + cbn [JsString.truthy]. by rewrite JSON_parse_empty_object.
    + cbn [JsString.truthy]. by rewrite Hd.
Qed.


(** C6, amended.  A request that is not a POST is answered 405 at once,
    before the body is touched.  A POST whose body the platform did not
    parse and whose stream ends on an empty text or on a text that is not
    JSON, or fails, is served as a request with empty answers: no exception
    escapes, a reply is one of 200, 502 and 500, and there is a reply unless
    a credential resolves and the upstream call never settles.  No POST is
    answered 405.  A body that the platform hands over as a raw non-empty
    string is not read again and is served with empty answers as well. *)
Theorem malformed_body_as_empty_answers `{Runtime} (w : world) (req : request) :
  (method req ≠ "POST" →
     handler w req = Run [] (Done (Response 405 (Send "Method not allowed"))))
  ∧ (method req = "POST" → no_parsed_body req → malformed_stream (stream req) →
     handler w req = Run (EvBodyListen :: trace (respond w (JObj [])))
                         (result (respond w (JObj [])))
     ∧ (∀ e, result (handler w req) ≠ Threw e)
     ∧ (∀ resp, result (handler w req) = Done resp →
        (status resp = 200 ∨ status resp = 502 ∨ status resp = 500)%Z)
     ∧ ((∃ resp, result (handler w req) = Done resp)
        ∨ (∃ key, result (getApiKey w) = Done (Some key)
                  ∧ network w endpoint (completion_request key (JObj [])) = FetchPending)))
  ∧ (method req = "POST" → ∀ resp, result (handler w req) = Done resp →
     status resp ≠ 405%Z)
  ∧ (method req = "POST" → ∀ c s, body req = JStr (String c s) →
     handler w req = respond w (JObj [])).
Proof.
  unfold handler. split; [| split; [| split]].
  - intros Hm. apply String.eqb_neq in Hm. by rewrite Hm.
  - intros -> Hb Hs. cbn [negb String.eqb].
    assert (read_body req = Run [EvBodyListen] (Done (JObj []))) as ->.
    { unfold read_body.
      assert (negb (Js.truthy (body req)) || (keys_length (body req) =? 0)%nat = true) as ->.
      { destruct Hb as [-> | ->]; [done | by rewrite orb_true_r]. }
      rewrite (bind_done _ _ tt) by done. by rewrite read_stream_malformed. }
    rewrite (bind_done _ _ (JObj [])) by done. cbn [get].
    rewrite bind_mret. cbn [Js.truthy default assoc].
    split; [done |]. cbn [result].
    destruct (getApiKey_done w) as [k Hk]. rewrite (respond_unfold _ _ _ Hk). cbv zeta.
    cbn [result]. destruct k as [key|].
    + destruct (relay_outcome w key (JObj [])) as [(r & -> & Hr) | [-> Hnet]].
      * split; [done |]. split; [by intros resp [= <-] |]. left. eauto.
      * split; [done |]. split; [done |]. right. eauto.
    + rewrite fallback_unfold, fallback_pick_unfold by done. cbn.
      split; [done |]. split; [intros resp [= <-]; auto |]. left. eauto.
  - intros -> resp. cbn [negb String.eqb]. unfold mbind, run_bind.
    destruct (result (read_body req)) as [b| |]; [| done..].
    cbn [result]. destruct (result (get b "answers")) as [a| |]; [| done..].
    cbn [result]. intros Hr%respond_done_status. lia.
  - intros -> c s Hraw. cbn [negb String.eqb]. unfold read_body. rewrite Hraw.
    cbn [Js.truthy JsString.truthy negb keys_length String.length Nat.eqb orb].
    rewrite bind_mret. cbn [get]. by rewrite bind_mret.
Qed.

(** C6 as stated fails when the stream delivers nothing more: a POST
    whose parsed body is the empty object makes the handler listen to the
    stream again, and with no ['end'] and no ['error'] to come it waits for
    ever, where a request with empty answers is answered 200. *)
Lemma empty_body_on_silent_stream_pends :
  handler (H := Demo.runtime) Demo.bare_world (Request "POST" (JObj []) [])
  = Run [EvBodyListen] Pending
  ∧ handler (H := Demo.runtime) Demo.bare_world (Request "POST" JUndefined [])
    = Run [EvBodyListen] Pending
  ∧ result (respond (H := Demo.runtime) Demo.bare_world (JObj []))
    = fallback_reply "Costa Rica".
Proof. repeat split; vm_compute; reflexivity. Qed.

(** *** The theorems at sample inputs *)

Lemma fallback_pick_override_chain_witness :
  let answers := JObj [ ("destinations", JArr [ JStr "belize"; JStr "panama" ]) ] in
  Js.truthy answers = true
  ∧ result (getApiKey Demo.bare_world) = Done None
  ∧ result (respond (H := Demo.runtime) Demo.bare_world answers) = fallback_reply "Panama".
Proof.
  intros answers. split; [reflexivity |]. split; [reflexivity |].
  destruct (fallback_pick_override_chain (H := Demo.runtime) Demo.bare_world answers
              eq_refl eq_refl) as [Hpanama _].
  apply Hpanama. cbn. rewrite !elem_of_cons. auto.
Defined.

Lemma fallback_recommendation_shape_witness :
  let answers := JObj [ ("relocationType", JStr "work visa") ] in
  let resp := Response 200 (Json (fallback_object "Panama")) in
  Js.truthy answers = true
  ∧ result (fallback answers) = Done resp
  ∧ fallback_shaped resp.
Proof.
  intros answers resp. split; [reflexivity |]. split; [reflexivity |].
  exact (fallback_recommendation_shape answers resp eq_refl eq_refl).
Defined.

Lemma fallback_total_for_text_relocation_witness :
  let answers := JObj [ ("destinations", JStr "caribbean"); ("relocationType", JStr "retire") ] in
  let numbered := JObj [ ("relocationType", JNum 5) ] in
  Js.truthy answers = true
  ∧ relocation_absent_falsy_or_string answers
  ∧ (∃ pick, pick ∈ countries ∧ fallback answers = Run [] (fallback_reply pick))
  ∧ fallback numbered = Run [] (Threw TypeError).
Proof.
  intros answers numbered. split; [reflexivity |].
  assert (relocation_absent_falsy_or_string answers) as Hr by (right; by eexists).
  split; [exact Hr |]. split.
  - exact (proj1 (fallback_total_for_text_relocation answers eq_refl) Hr).
  - apply (proj2 (fallback_total_for_text_relocation numbered eq_refl)); cbn; try done.
    + by intros ?%elem_of_nil.
    + by intros ?%elem_of_nil.
Defined.

Lemma assistant_parsed_from_first_brace_witness :
  let w := Demo.keyed_world (Demo.completion Demo.prose_then_object) in
  result (relay (H := Demo.runtime) w "sk-first" (JObj []))
  = Done (Response 200 (Json (JObj [ ("country", JStr "Belize") ]))).
Proof.
  intros w.
  pose (j := JObj [ ("choices",
                     JArr [ JObj [ ("message",
                                    JObj [ ("role", JStr "assistant");
                                           ("content", JStr Demo.prose_then_object) ]) ] ]) ]).
  destruct (assistant_parsed_from_first_brace (H := Demo.runtime) w "sk-first" (JObj [])
              (Upstream true (Some (Demo.print j))) (Demo.print j) j
              eq_refl eq_refl eq_refl ltac:(vm_compute; reflexivity) eq_refl)
    as [Hbrace _].
  specialize (Hbrace "Here you go: "
                     (Demo.quoted "country" +:+ ":" +:+ Demo.quoted "Belize" +:+ "}")).
  rewrite Hbrace.
  - vm_compute. reflexivity.
  - vm_compute. reflexivity.
  - apply includes_false_iff. vm_compute. reflexivity.
Defined.

Lemma upstream_failure_status_witness :
  let refused := Demo.keyed_world (FetchResolves (Upstream false (Some "quota exceeded"))) in
  let offline := Demo.keyed_world (FetchRejects (IOError "timeout")) in
  result (getApiKey refused) = Done (Some "sk-first")
  ∧ result (respond (H := Demo.runtime) refused (JObj []))
    = Done (Response 502 (Send "OpenAI API error"))
  ∧ result (respond (H := Demo.runtime) offline (JObj []))
    = Done (Response 500 (Send "Server error")).
Proof.
  intros refused offline. split; [reflexivity |]. split.
  - destruct (upstream_failure_status (H := Demo.runtime) refused "sk-first" (JObj []) eq_refl)
      as [Hrefused _].
    by rewrite (Hrefused (Upstream false (Some "quota exceeded")) "quota exceeded"
                  eq_refl eq_refl eq_refl).
  - destruct (upstream_failure_status (H := Demo.runtime) offline "sk-first" (JObj []) eq_refl)
      as (_ & Hthrown & Hrejected & _).
    specialize (Hrejected (IOError "timeout") eq_refl).
    rewrite (Hthrown (IOError "timeout")); [done |]. by rewrite Hrejected.
Defined.

Lemma malformed_body_as_empty_answers_witness :
  let req := Request "POST" JUndefined [ Data "not "; Data "json"; End ] in
  method req = "POST"
  ∧ no_parsed_body req
  ∧ malformed_stream (H := Demo.runtime) (stream req)
  ∧ result (handler (H := Demo.runtime) Demo.bare_world req) = fallback_reply "Costa Rica"
  ∧ handler (H := Demo.runtime) Demo.bare_world (Request "GET" JUndefined [])
    = Run [] (Done (Response 405 (Send "Method not allowed"))).
Proof.
  intros req.
  assert (no_parsed_body req) as Hb by (by left).
  assert (malformed_stream (H := Demo.runtime) (stream req)) as Hs.
  { exists [ "not "; "json" ], []. left. split; [reflexivity |]. right.
    vm_compute. reflexivity. }
  split; [reflexivity |]. split; [exact Hb |]. split; [exact Hs |]. split.
  - destruct (malformed_body_as_empty_answers (H := Demo.runtime) Demo.bare_world req)
      as (_ & Hpost & _).
    destruct (Hpost eq_refl Hb Hs) as [-> _]. vm_compute. reflexivity.
  - destruct (malformed_body_as_empty_answers (H := Demo.runtime) Demo.bare_world
                (Request "GET" JUndefined [])) as (Hget & _).
    apply Hget. discriminate.
Defined.

(** *** The testable properties of the specification, run on the model *)

Example resolution_prefers_first_variable reply :
  getApiKey (Demo.keyed_world reply) = Run [] (Done (Some "sk-first")).
Proof. reflexivity. Qed.

Example resolution_reads_named_file :
  getApiKey Demo.file_world = Run [EvReadFile "/etc/key"] (Done (Some "sk-file")).
Proof. vm_compute. reflexivity. Qed.

Example resolution_finds_nothing :
  getApiKey Demo.bare_world =
  Run [EvReadFile "./OPEN_AI_KEY"; EvReadFile "/run/secrets/OPEN_AI_KEY"] (Done None).
Proof. vm_compute. reflexivity. Qed.

Example fallback_work_visa :
  result (handler (H := Demo.runtime) Demo.bare_world
            (Request "POST" (JObj [ ("answers", JObj [ ("relocationType", JStr "work visa") ]) ]) []))
  = fallback_reply "Panama".
Proof. vm_compute. reflexivity. Qed.

Example fallback_belize_only :
  result (handler (H := Demo.runtime) Demo.bare_world
            (Request "POST" (JObj [ ("answers", JObj [ ("destinations", JStr "belize") ]) ]) []))
  = fallback_reply "Belize".
Proof. vm_compute. reflexivity. Qed.

Example relay_without_object :
  result (handler (H := Demo.runtime) (Demo.keyed_world (Demo.completion "Sorry, no idea."))
            (Request "POST" JUndefined [ Data "{}"; End ]))
  = Done (Response 200 (Json (JObj [ ("text", JStr "Sorry, no idea.") ]))).
Proof. vm_compute. reflexivity. Qed.

(** A body that parses to [null] is not covered by C6: reading [answers]
    off it throws. *)
Example null_body_throws :
  result (handler (H := Demo.runtime) Demo.bare_world
            (Request "POST" JUndefined [ Data "null"; End ]))
  = Threw TypeError.
Proof. vm_compute. reflexivity. Qed.

(** A request stream that neither ends nor fails leaves the handler
    waiting. *)
Example silent_stream_pends :
  result (handler (H := Demo.runtime) Demo.bare_world (Request "POST" JUndefined [ Data "{}" ]))
  = Pending.
Proof. reflexivity. Qed.

(** A body the platform left as a raw string is not read again, and holds
    no [answers]. *)
Example raw_string_body_has_no_answers :
  result (handler (H := Demo.runtime) Demo.bare_world (Request "POST" (JStr "a=1") []))
  = fallback_reply "Costa Rica".
Proof. vm_compute. reflexivity. Qed.

(** An upstream call that never settles leaves the handler waiting. *)
Example silent_upstream_pends :
  result (handler (H := Demo.runtime) (Demo.keyed_world FetchPending)
            (Request "POST" JUndefined [ End ]))
  = Pending.
Proof. vm_compute. reflexivity. Qed.

(** An array for [relocationType] answers [includes] by membership. *)
Example array_relocation_does_not_throw :
  result (fallback (JObj [ ("relocationType", JArr [ JStr "work" ]) ])) = fallback_reply "Panama".
Proof. reflexivity. Qed.
End RecommendFacts.
(** ** Facts about the navigation highlighters *)

Module ShimmerFacts.
Import JsString Shimmer Spec JsStringFacts.

Lemma map_get_set_eq (k : string) (a : nat) (m : anchor_map) :
  map_get k (map_set k a m) = Some a.
Proof.
  induction m as [|[k' a'] m IH]; cbn [map_set map_get].
  - by rewrite String.eqb_refl.
  - destruct (String.eqb k' k) eqn:E; cbn [map_get]; [by rewrite String.eqb_refl |].
    by rewrite E.
Qed.

Lemma map_get_set_ne (k k' : string) (a : nat) (m : anchor_map) :
  k ≠ k' → map_get k' (map_set k a m) = map_get k' m.
Proof.
  intros Hne. induction m as [|[k0 a0] m IH]; cbn [map_set map_get].
  - apply String.eqb_neq in Hne. by rewrite Hne.
  - destruct (String.eqb k0 k) eqn:E; cbn [map_get].
    + apply String.eqb_eq in E as ->. apply String.eqb_neq in Hne. by rewrite Hne.
    + by rewrite IH.
Qed.

Lemma map_get_elem_of (k : string) (a : nat) (m : anchor_map) :
  NoDup m.*1 → (k, a) ∈ m ↔ map_get k m = Some a.
Proof.
  induction m as [|[k0 a0] m IH]; cbn [map_get fmap list_fmap fst].
  - intros _. rewrite elem_of_nil. split; [tauto | done].
  - intros [Hk0 Hnd]%NoDup_cons. rewrite elem_of_cons.
    destruct (String.eqb k0 k) eqn:E.
    + apply String.eqb_eq in E as ->. split; [| intros [= ->]; by left].
      intros [[= ->] | Hin]; [done |]. destruct Hk0.
      apply list_elem_of_fmap. by exists (k, a).
    + apply String.eqb_neq in E. rewrite <- (IH Hnd). split; [| by right].
      intros [[= -> ->] | Hin]; [done | done].
Qed.

Lemma map_set_keys (k : string) (a : nat) (m : anchor_map) :
  (map_set k a m).*1 = if map_has k m then m.*1 else m.*1 ++ [k].
Proof.
  unfold map_has. induction m as [|[k0 a0] m IH]; cbn [map_set map_get]; [done |].
  destruct (String.eqb k0 k) eqn:E.
  - apply String.eqb_eq in E as ->. done.
  - cbn [fmap list_fmap fst]. cbn [fmap] in IH. rewrite IH.
    by destruct (map_get k m).
Qed.

Lemma map_has_false_keys (k : string) (m : anchor_map) :
  map_has k m = false → k ∉ m.*1.
Proof.
  unfold map_has. induction m as [|[k0 a0] m IH]; cbn [map_get fmap list_fmap fst].
  { by intros _ ?%elem_of_nil. }
  destruct (String.eqb k0 k) eqn:E; [done |]. apply String.eqb_neq in E.
  intros Hm [-> | Hin]%elem_of_cons; [done |]. by apply IH.
Qed.

Lemma map_set_NoDup (k : string) (a : nat) (m : anchor_map) :
  NoDup m.*1 → NoDup (map_set k a m).*1.
Proof.
  intros Hnd. rewrite map_set_keys. destruct (map_has k m) eqn:E; [done |].
  apply NoDup_app. split; [done |]. split; [| apply NoDup_singleton].
  intros x Hx ->%list_elem_of_singleton. by apply map_has_false_keys in E.
Qed.

Lemma map_set_elem_of (k : string) (a : nat) (m : anchor_map) (k' : string) (a' : nat) :
  (k', a') ∈ map_set k a m → (k', a') = (k, a) ∨ (k', a') ∈ m.
Proof.
  induction m as [|[k0 a0] m IH]; cbn [map_set].
  - intros ->%list_elem_of_singleton. by left.
  - destruct (String.eqb k0 k); rewrite !elem_of_cons; [tauto |].
    intros [-> | Hin]; [by right; left |]. destruct (IH Hin); auto.
Qed.

Section Page.
Variable d : document.

Lemma visit_well_filed (v : variant) (m : anchor_map) (a : nat) :
  well_filed d m → well_filed d (visit d v m a).
Proof.
  intros [Hnd Hf]. unfold visit. destruct (filename_of d a) as [f|] eqn:E; [| done].
  assert (well_filed d (map_set f a m)) as Hset.
  { split; [by apply map_set_NoDup |].
    intros f' a' [[= -> ->] | Hin]%map_set_elem_of; auto. }
  destruct v; [done |]. by destruct (map_has f m).
Qed.

Lemma foldl_visit_well_filed (v : variant) (nodes : list nat) (m : anchor_map) :
  well_filed d m → well_filed d (foldl (visit d v) m nodes).
Proof.
  revert m. induction nodes as [|a nodes IH]; intros m Hm; [done |].
  cbn [foldl]. by apply IH, visit_well_filed.
Qed.

Lemma collect_well_filed (v : variant) : well_filed d (collect d v).
Proof.
  unfold collect. generalize (selectors v). intros sels.
  assert (well_filed d []) as H0.
  { split; [constructor | by intros f a ?%elem_of_nil]. }
  revert H0. generalize (@nil (string * nat)). induction sels as [|sel sels IH]; intros m Hm; [done |].
  cbn [foldl]. by apply IH, foldl_visit_well_filed.
Qed.

Lemma recorded_well_filed (v : variant) : well_filed d (recorded d v).
Proof.
  unfold recorded. destruct v; [apply collect_well_filed |].
  destruct (_ =? _)%nat; [| apply collect_well_filed].
  split; [constructor | by intros f a ?%elem_of_nil].
Qed.

Lemma well_filed_anchors_NoDup (m : anchor_map) : well_filed d m → NoDup m.*2.
Proof.
  intros [Hnd Hf]. induction m as [|[f a] m IH]; [constructor |].
  cbn [fmap list_fmap fst snd] in *. apply NoDup_cons in Hnd as [Hk Hnd].
  apply NoDup_cons. split.
  - intros ([f' a'] & -> & Hin)%list_elem_of_fmap. cbn [snd] in *.
    assert (f' = f) as ->.
    { pose proof (Hf f a' ltac:(by left)). pose proof (Hf f' a' ltac:(by right)). congruence. }
    apply Hk. apply list_elem_of_fmap. by exists (f, a').
  - apply IH; [done |]. intros f' a' Hin. apply Hf. by right.
Qed.

Lemma apply_one_eq (v : variant) (store : gmap nat element) (f : string) (a : nat) :
  apply_one d v store (f, a) =
  match store !! a with
  | Some e => <[a := decorated d v f e]> store
  | None => store
  end.
Proof.
  unfold apply_one, decorated. destruct (store !! a) as [e|]; [| done].
  destruct (_ && _); [| done]. by destruct v.
Qed.

Lemma apply_one_lookup (v : variant) (store : gmap nat element) (f : string) (a a' : nat) :
  apply_one d v store (f, a) !! a' =
  if decide (a = a') then decorated d v f <$> store !! a else store !! a'.
Proof.
  rewrite apply_one_eq. destruct (decide (a = a')) as [<- | Hne].
  - destruct (store !! a) as [e|] eqn:E; [by rewrite lookup_insert_eq | by rewrite E].
  - destruct (store !! a) as [e|]; [by rewrite lookup_insert_ne | done].
Qed.

Lemma apply_all_other (v : variant) (m : anchor_map) (store : gmap nat element) (a : nat) :
  a ∉ m.*2 → apply_all d v m store !! a = store !! a.
Proof.
  unfold apply_all. revert store. induction m as [|[f0 a0] m IH]; intros store Hnot; [done |].
  cbn [foldl]. cbn [fmap list_fmap snd] in Hnot. apply not_elem_of_cons in Hnot as [Hne Hnot].
  rewrite (IH _ Hnot), apply_one_lookup. by destruct (decide (a0 = a)).
Qed.

Lemma apply_all_recorded (v : variant) (m : anchor_map) (store : gmap nat element)
    (f : string) (a : nat) :
  NoDup m.*2 → (f, a) ∈ m →
  apply_all d v m store !! a = decorated d v f <$> store !! a.
Proof.
  unfold apply_all. revert store. induction m as [|[f0 a0] m IH]; intros store Hnd Hin.
  { by apply elem_of_nil in Hin. }
  cbn [fmap list_fmap snd] in Hnd. apply NoDup_cons in Hnd as [Hfresh Hnd].
  cbn [foldl]. apply elem_of_cons in Hin as [[= <- <-] | Hin].
  - fold (apply_all d v m (apply_one d v store (f, a))).
    rewrite (apply_all_other _ _ _ _ Hfresh), apply_one_lookup. by destruct (decide (a = a)).
  - rewrite (IH _ Hnd Hin), apply_one_lookup.
    destruct (decide (a0 = a)) as [-> | Hne]; [| done].
    destruct Hfresh. apply list_elem_of_fmap. by exists (f, a).
Qed.

Lemma filename_of_Some (a : nat) (f : string) :
  filename_of d a = Some f ↔
  ∃ e href, elements d !! a = Some e
            ∧ contains_img e = false ∧ contains_svg e = false
            ∧ attrs e !! "href" = Some href
            ∧ f = toLowerCase (pop (split "/" href)) ∧ f ≠ EmptyString.
Proof.
  unfold filename_of, getAttribute. split.
  - destruct (elements d !! a) as [e|]; [| done].
    destruct (contains_img e) eqn:Ei; [done |].
    destruct (contains_svg e) eqn:Es; [done |]. cbn [orb].
    destruct (attrs e !! "href") as [href|] eqn:Eh; [| done].
    destruct (negb (truthy href)); [done |].
    destruct (negb (truthy (toLowerCase (pop (split "/" href))))) eqn:Et; [done |].
    intros [= <-]. exists e, href. repeat split; try done.
    intros E. by rewrite E in Et.
  - intros (e & href & -> & -> & -> & -> & -> & Hne). cbn [orb].
    destruct href as [|c href]; [done |]. cbn [truthy negb].
    by destruct (toLowerCase _).
Qed.

Lemma shimmer_in_decorated (v : variant) (f : string) (e : element) :
  "shimmer" ∈ classList (decorated d v f e) ↔ f ∈ destinationPages d v ∧ f ≠ current d.
Proof.
  unfold decorated.
  destruct (bool_decide _ && negb _) eqn:E.
  - apply andb_true_iff in E as [Hin%bool_decide_eq_true Hne%negb_true_iff%String.eqb_neq].
    split; [done | intros _].
    assert ("shimmer" ∈ classList (classList_add "shimmer" e)) as Hadd.
    { unfold classList_add. cbn [classList]. case_bool_decide; [done |].
      apply elem_of_app. right. by apply list_elem_of_singleton. }
    by destruct v.
  - cbn [classList_remove classList]. rewrite list_elem_of_filter. split; [by intros [? _] |].
    intros [Hin Hne]. exfalso. apply andb_false_iff in E as [E | E].
    + by apply bool_decide_eq_false in E.
    + apply negb_false_iff, String.eqb_eq in E. done.
Qed.

Lemma recorded_lookup (v : variant) (f : string) (a : nat) :
  (f, a) ∈ recorded d v →
  run_script d v !! a = decorated d v f <$> elements d !! a.
Proof.
  intros Hin. unfold run_script. apply apply_all_recorded; [| done].
  apply well_filed_anchors_NoDup, recorded_well_filed.
Qed.

Lemma unrecorded_lookup (v : variant) (a : nat) :
  a ∉ (recorded d v).*2 → run_script d v !! a = elements d !! a.
Proof. apply apply_all_other. Qed.

(** C7. In both scripts, every recorded anchor carries the class
    "shimmer" after the run exactly when its normalised filename is a
    destination and is not the current page; an anchor that wraps an
    [img] or an [svg] is never recorded and is left as it was. *)
Theorem shimmer_iff_other_destination (v : variant) :
  (∀ f a, (f, a) ∈ recorded d v →
     ∃ e e' href,
       elements d !! a = Some e
       ∧ attrs e !! "href" = Some href
       ∧ f = toLowerCase (pop (split "/" href))
       ∧ run_script d v !! a = Some e'
       ∧ ("shimmer" ∈ classList e' ↔ f ∈ destinationPages d v ∧ f ≠ current d))
  ∧ (∀ a e, elements d !! a = Some e →
       contains_img e = true ∨ contains_svg e = true →
       (a ∉ (recorded d v).*2) ∧ run_script d v !! a = Some e).
Proof.
  split.
  - intros f a Hin.
    destruct (recorded_well_filed v) as [_ Hfiled].
    destruct (proj1 (filename_of_Some a f) (Hfiled _ _ Hin))
      as (e & href & He & _ & _ & Hh & Hf & _).
    exists e, (decorated d v f e), href.
    split; [done |]. split; [done |]. split; [done |]. split.
    + by rewrite (recorded_lookup _ _ _ Hin), He.
    + apply shimmer_in_decorated.
  - intros a e He Hlogo.
    assert (a ∉ (recorded d v).*2) as Hnot.
    { intros ([f a'] & -> & Hin)%list_elem_of_fmap. cbn [snd] in *.
      destruct (recorded_well_filed v) as [_ Hfiled].
      destruct (proj1 (filename_of_Some a' f) (Hfiled _ _ Hin))
        as (e0 & href & He0 & Hi & Hs & _).
      rewrite He in He0. injection He0 as <-. destruct Hlogo; congruence. }
    split; [done |]. by rewrite (unrecorded_lookup _ _ Hnot).
Qed.

Lemma classList_add_others (tok : string) (e : element) :
  filter (λ t, t ≠ tok) (classList (classList_add tok e)) = filter (λ t, t ≠ tok) (classList e).
Proof.
  unfold classList_add. cbn [classList]. case_bool_decide; [done |].
  rewrite filter_app, filter_cons_False, filter_nil, app_nil_r; [done | by intros ?].
Qed.

Lemma classList_remove_others (tok : string) (e : element) :
  filter (λ t, t ≠ tok) (classList (classList_remove tok e)) = filter (λ t, t ≠ tok) (classList e).
Proof.
  unfold classList_remove. cbn [classList]. rewrite list_filter_filter.
  apply list_filter_iff. tauto.
Qed.

Lemma decorated_framed (v : variant) (f : string) (e : element) :
  framed v e (decorated d v f e).
Proof.
  unfold framed, decorated. destruct (bool_decide _ && negb _).
  - assert ("shimmer" ∈ classList (classList_add "shimmer" e)) as Hadd.
    { unfold classList_add. cbn [classList]. case_bool_decide; [done |].
      apply elem_of_app. right. by apply list_elem_of_singleton. }
    destruct v; [| repeat split; [apply classList_add_others | by left]].
    unfold setAttribute, getAttribute. cbn [attrs classList contains_img contains_svg classList_add].
    repeat split; [apply (classList_add_others "shimmer" e) |].
    destruct (attrs e !! "tabindex") as [t|] eqn:Et.
    + destruct t as [|c t]; cbn [truthy].
      * right. repeat split; auto.
      * left. by apply insert_id.
    + right. repeat split; auto.
  - repeat split; [apply classList_remove_others | by left].
Qed.

(** C9, amended.  A run creates and removes no element, and changes an
    element at most in the presence of "shimmer" in its class list,
    except that the first script also sets [tabindex] to "0" on an anchor
    that receives the class and has no [tabindex] or an empty one. *)
Theorem run_changes_only_shimmer_and_tabindex (v : variant) (a : nat) :
  match elements d !! a, run_script d v !! a with
  | Some e, Some e' => framed v e e'
  | None, None => True
  | _, _ => False
  end.
Proof.
  destruct (decide (a ∈ (recorded d v).*2)) as [Hin | Hnot].
  - apply list_elem_of_fmap in Hin as ([f a'] & -> & Hin). cbn [snd].
    rewrite (recorded_lookup _ _ _ Hin).
    destruct (elements d !! a') as [e|]; cbn [fmap option_fmap option_map]; [| done].
    apply decorated_framed.
  - rewrite (unrecorded_lookup _ _ Hnot).
    destruct (elements d !! a) as [e|]; [| done].
    repeat split. by left.
Qed.

Lemma collect_scan (v : variant) : collect d v = foldl (visit d v) [] (scan d v).
Proof.
  unfold collect, scan. generalize (@nil (string * nat)).
  induction (selectors v) as [|sel sels IH]; intros m; [done |].
  cbn [foldl fmap list_fmap concat]. by rewrite foldl_app, IH.
Qed.

Lemma foldl_visit_first (f : string) (nodes : list nat) (m : anchor_map) :
  map_get f (foldl (visit d DataDriven) m nodes) =
  match map_get f m with
  | Some a => Some a
  | None => head (filter (λ a, filename_of d a = Some f) nodes)
  end.
Proof.
  revert m. induction nodes as [|a nodes IH]; intros m; cbn [foldl].
  { by destruct (map_get f m). }
  rewrite IH. unfold visit. rewrite filter_cons.
  destruct (filename_of d a) as [f'|] eqn:Ef; [| by case_decide].
  destruct (decide (f' = f)) as [-> | Hne].
  - rewrite decide_True by done. unfold map_has.
    destruct (map_get f m) as [x|] eqn:Em; cbn [negb]; [by rewrite Em |].
    by rewrite map_get_set_eq.
  - rewrite decide_False by congruence.
    destruct (negb (map_has f' m)); [| done]. by rewrite map_get_set_ne.
Qed.

Lemma foldl_visit_last (f : string) (nodes : list nat) (m : anchor_map) :
  map_get f (foldl (visit d FixedList) m nodes) =
  match last (filter (λ a, filename_of d a = Some f) nodes) with
  | Some a => Some a
  | None => map_get f m
  end.
Proof.
  revert m. induction nodes as [|a nodes IH]; intros m; cbn [foldl]; [done |].
  rewrite IH. unfold visit. rewrite filter_cons.
  destruct (filename_of d a) as [f'|] eqn:Ef; [| by case_decide].
  destruct (decide (f' = f)) as [-> | Hne].
  - rewrite decide_True by done. rewrite last_cons, map_get_set_eq.
    by destruct (last _).
  - rewrite decide_False by congruence. by rewrite map_get_set_ne.
Qed.

(** The second script keeps, for each filename, the first anchor of the
    scan filed under it. *)
Lemma data_driven_first_wins (f : string) :
  map_get f (collect d DataDriven) = head (qualifying d DataDriven f).
Proof. by rewrite collect_scan, foldl_visit_first. Qed.

(** The first script keeps the last one. *)
Lemma fixed_list_last_wins (f : string) :
  map_get f (collect d FixedList) = last (qualifying d FixedList f).
Proof.
  rewrite collect_scan, foldl_visit_last. unfold qualifying. by destruct (last _).
Qed.
End Page.

(** *** The theorems at sample pages *)

Lemma shimmer_iff_other_destination_witness :
  ("costarica.html", 1%nat) ∈ recorded Demo.nav_page FixedList
  ∧ (∃ e', run_script Demo.nav_page FixedList !! 1%nat = Some e' ∧ "shimmer" ∈ classList e')
  ∧ ("panama.html", 2%nat) ∈ recorded Demo.nav_page DataDriven
  ∧ (∃ e', run_script Demo.nav_page DataDriven !! 2%nat = Some e' ∧ "shimmer" ∉ classList e')
  ∧ run_script Demo.nav_page FixedList !! 4%nat = Some (Demo.logo "costarica.html").
Proof.
  assert (∀ v, recorded Demo.nav_page v
               = [ ("costarica.html", 1%nat); ("panama.html", 2%nat); ("belize.html", 3%nat) ])
    as Hrec by (intros []; vm_compute; reflexivity).
  assert (("costarica.html", 1%nat) ∈ recorded Demo.nav_page FixedList) as H1.
  { rewrite Hrec, !elem_of_cons. auto. }
  assert (("panama.html", 2%nat) ∈ recorded Demo.nav_page DataDriven) as H2.
  { rewrite Hrec, !elem_of_cons. auto. }
  split; [exact H1 |]. split; [| split; [exact H2 |]; split].
  - destruct (proj1 (shimmer_iff_other_destination Demo.nav_page FixedList) _ _ H1)
      as (e & e' & href & _ & _ & _ & Hrun & Hiff).
    exists e'. split; [exact Hrun |]. apply Hiff. split.
    + unfold destinationPages, destinationPages_fixed. rewrite !elem_of_cons. auto.
    + vm_compute. discriminate.
  - destruct (proj1 (shimmer_iff_other_destination Demo.nav_page DataDriven) _ _ H2)
      as (e & e' & href & _ & _ & _ & Hrun & Hiff).
    exists e'. split; [exact Hrun |]. intros [_ Hne]%Hiff. by apply Hne.
  - apply (proj2 (shimmer_iff_other_destination Demo.nav_page FixedList) 4%nat);
      [reflexivity | by left].
Defined.

(** C9 as stated fails on the first script: the link to costarica.html of
    the sample page has no [tabindex] before the run and [tabindex="0"]
    after it. *)
Lemma fixed_list_sets_tabindex :
  ∃ e e', elements Demo.nav_page !! 1%nat = Some e
          ∧ run_script Demo.nav_page FixedList !! 1%nat = Some e'
          ∧ attrs e !! "tabindex" = None
          ∧ attrs e' !! "tabindex" = Some "0"
          ∧ attrs e' ≠ attrs e.
Proof.
  exists (Demo.link "costarica.html"),
         (setAttribute "tabindex" "0" (classList_add "shimmer" (Demo.link "costarica.html"))).
  split; [reflexivity |]. split; [vm_compute; reflexivity |].
  split; [reflexivity |]. split; [reflexivity |].
  intros E. apply (f_equal (λ m : gmap string string, m !! "tabindex")) in E. discriminate E.
Qed.

(** C8 on the first script, at a page with two links to one filename: the
    scan meets anchor 1 first, yet the anchor recorded, and the one that
    gets the class, is anchor 2.  The second script records anchor 1. *)
Theorem fixed_list_records_last_duplicate :
  qualifying Demo.duplicate_page FixedList "costarica.html" = [1; 2]%nat
  ∧ recorded Demo.duplicate_page FixedList = [ ("costarica.html", 2%nat) ]
  ∧ classList <$> run_script Demo.duplicate_page FixedList !! 1%nat = Some [ "nav-link" ]
  ∧ classList <$> run_script Demo.duplicate_page FixedList !! 2%nat
    = Some [ "nav-link"; "shimmer" ]
  ∧ recorded Demo.duplicate_page DataDriven = [ ("costarica.html", 1%nat) ].
Proof. repeat split; vm_compute; reflexivity. Qed.
End ShimmerFacts.
(** ** Further facts about the string primitives *)

Module JsStringMore.
Import JsString Spec More JsStringFacts.

Lemma trimStart_first (s : string) (c : ascii) :
  first_unit (trimStart s) = Some c → is_white_space c = false.
Proof.
  induction s as [|x s IH]; cbn [trimStart]; [done |].
  destruct (is_white_space x) eqn:E; [done |]. cbn. by intros [= <-].
Qed.

Lemma trimStart_fixed (s : string) :
  (∀ c, first_unit s = Some c → is_white_space c = false) → trimStart s = s.
Proof.
  destruct s as [|x s]; [done |]. intros Hc. cbn [trimStart].
  by rewrite (Hc x eq_refl).
Qed.

Lemma trimEnd_first (s : string) (c : ascii) :
  first_unit s = Some c → is_white_space c = false → first_unit (trimEnd s) = Some c.
Proof.
  destruct s as [|x s]; [done |]. cbn [first_unit trimEnd]. intros [= ->] Hc.
  destruct (trimEnd s); [by rewrite Hc | done].
Qed.

Lemma trimEnd_first_inv (s : string) (c : ascii) :
  first_unit (trimEnd s) = Some c → first_unit s = Some c.
Proof.
  destruct s as [|x s]; [done |]. cbn [first_unit trimEnd].
  destruct (trimEnd s); [by destruct (is_white_space x) | done].
Qed.

Lemma trimEnd_last (s : string) (c : ascii) :
  last_unit (trimEnd s) = Some c → is_white_space c = false.
Proof.
  induction s as [|x s IH]; cbn [trimEnd]; [done |].
  destruct (trimEnd s) as [|y r] eqn:E.
  - destruct (is_white_space x) eqn:Ex; [done |]. cbn. by intros [= <-].
  - cbn [last_unit]. exact IH.
Qed.

Lemma trimEnd_cons (x : ascii) (s : string) :
  trimEnd (String x s) =
  match trimEnd s with
  | EmptyString => if is_white_space x then EmptyString else String x EmptyString
  | r => String x r
  end.
Proof. reflexivity. Qed.

Lemma trimEnd_idempotent (s : string) : trimEnd (trimEnd s) = trimEnd s.
Proof.
  induction s as [|x s IH]; [done |]. rewrite trimEnd_cons.
  destruct (trimEnd s) as [|y r] eqn:E.
  - destruct (is_white_space x) eqn:Ex; [done |]. cbn [trimEnd]. by rewrite Ex.
  - rewrite trimEnd_cons, IH. done.
Qed.

(** [trim] leaves no white space at either end, and trimming again changes
    nothing. *)
Lemma trim_clean (s : string) : clean_ends (trim s) ∧ trim (trim s) = trim s.
Proof.
  assert (∀ c, first_unit (trim s) = Some c → is_white_space c = false) as Hfirst.
  { intros c Hc. apply trimEnd_first_inv in Hc. by apply trimStart_first in Hc. }
  split; [split; [done | apply trimEnd_last] |].
  unfold trim at 1. rewrite (trimStart_fixed _ Hfirst). apply trimEnd_idempotent.
Qed.

Lemma lower_unit_idempotent (c : ascii) : lower_unit (lower_unit c) = lower_unit c.
Proof. by destruct c as [[] [] [] [] [] [] [] []]. Qed.

Lemma lower_unit_white_space (c : ascii) :
  is_white_space (lower_unit c) = is_white_space c.
Proof. by destruct c as [[] [] [] [] [] [] [] []]. Qed.

Lemma lower_unit_eq (c x : ascii) :
  (97 <=? nat_of_ascii x)%nat && (nat_of_ascii x <=? 122)%nat = false →
  (224 <=? nat_of_ascii x)%nat && (nat_of_ascii x <=? 254)%nat = false →
  lower_unit c = x → c = x.
Proof.
  intros H1 H2 <-. revert H1 H2. by destruct c as [[] [] [] [] [] [] [] []].
Qed.

Lemma toLowerCase_idempotent (s : string) : toLowerCase (toLowerCase s) = toLowerCase s.
Proof.
  induction s as [|c s IH]; cbn [toLowerCase]; [done |].
  by rewrite lower_unit_idempotent, IH.
Qed.

Lemma toLowerCase_empty (s : string) : toLowerCase s = EmptyString ↔ s = EmptyString.
Proof. by destruct s. Qed.

Lemma occurs_unit_nil (c : ascii) : ¬ occurs (String c EmptyString) EmptyString.
Proof. intros ([|x pre] & post & E); unfold_append; discriminate. Qed.

Lemma occurs_unit_cons (c x : ascii) (s : string) :
  occurs (String c EmptyString) (String x s) ↔ x = c ∨ occurs (String c EmptyString) s.
Proof.
  split.
  - intros ([|y pre] & post & E); unfold_append.
    + injection E as -> _. by left.
    + injection E as -> ->. right. by exists pre, post.
  - intros [-> | (pre & post & ->)].
    + by exists EmptyString, s.
    + by exists (String x pre), post.
Qed.

Lemma toLowerCase_slash (s : string) : occurs "/" (toLowerCase s) → occurs "/" s.
Proof.
  induction s as [|c s IH]; cbn [toLowerCase]; [done |].
  rewrite !occurs_unit_cons. intros [E | Hs]; [left | right; auto].
  by apply (lower_unit_eq c "/").
Qed.

Lemma toLowerCase_first (s : string) :
  first_unit (toLowerCase s) = lower_unit <$> first_unit s.
Proof. by destruct s. Qed.

Lemma toLowerCase_last (s : string) :
  last_unit (toLowerCase s) = lower_unit <$> last_unit s.
Proof.
  induction s as [|c s IH]; [done |]. cbn [toLowerCase last_unit].
  destruct s as [|x s]; [done |]. exact IH.
Qed.

Lemma toLowerCase_clean (s : string) : clean_ends s → clean_ends (toLowerCase s).
Proof.
  intros [Hf Hl]. split; intros c.
  - rewrite toLowerCase_first. destruct (first_unit s) as [x|]; [| done].
    intros [= <-]. rewrite lower_unit_white_space. by apply Hf.
  - rewrite toLowerCase_last. destruct (last_unit s) as [x|]; [| done].
    intros [= <-]. rewrite lower_unit_white_space. by apply Hl.
Qed.

(** No piece of a [split] holds the separator. *)
Lemma split_pieces (sep : ascii) (s p : string) :
  p ∈ split sep s → ¬ occurs (String sep EmptyString) p.
Proof.
  revert p. induction s as [|c s IH]; intros p; cbn [split].
  - intros ->%list_elem_of_singleton. apply occurs_unit_nil.
  - destruct (Ascii.eqb c sep) eqn:E.
    + intros [-> | Hin]%elem_of_cons; [apply occurs_unit_nil | by apply IH].
    + apply Ascii.eqb_neq in E.
      destruct (split sep s) as [|h t] eqn:Es; [by apply split_nonempty in Es |].
      intros [-> | Hin]%elem_of_cons.
      * rewrite occurs_unit_cons. intros [? | Hh]; [done |].
        apply (IH h); [by left | done].
      * apply IH. by right.
Qed.

Lemma pop_split_elem (sep : ascii) (s : string) :
  Shimmer.pop (split sep s) ∈ split sep s.
Proof.
  unfold Shimmer.pop. destruct (split_last sep s) as [p Hp]. rewrite Hp. cbn.
  by apply last_Some_elem_of.
Qed.

Lemma split_trailing (sep : ascii) (s : string) :
  ∃ h t, split sep (s +:+ String sep EmptyString) = (h :: t) ++ [EmptyString].
Proof.
  induction s as [|c s (h & t & IH)]; unfold_append; cbn [split].
  - rewrite Ascii.eqb_refl. by exists EmptyString, [].
  - rewrite IH. destruct (Ascii.eqb c sep).
    + by exists EmptyString, (h :: t).
    + by exists (String c h), t.
Qed.

(** The last piece is empty when the string ends with the separator. *)
Lemma pop_split_trailing (sep : ascii) (s : string) :
  Shimmer.pop (split sep (s +:+ String sep EmptyString)) = EmptyString.
Proof.
  unfold Shimmer.pop. destruct (split_trailing sep s) as (h & t & ->).
  by rewrite last_snoc.
Qed.

Lemma trimStart_occurs (c : ascii) (s : string) :
  occurs (String c EmptyString) (trimStart s) → occurs (String c EmptyString) s.
Proof.
  induction s as [|x s IH]; cbn [trimStart]; [done |].
  destruct (is_white_space x); [| done]. rewrite occurs_unit_cons. auto.
Qed.

Lemma trimEnd_occurs (c : ascii) (s : string) :
  occurs (String c EmptyString) (trimEnd s) → occurs (String c EmptyString) s.
Proof.
  induction s as [|x s IH]; [done |]. rewrite trimEnd_cons.
  destruct (trimEnd s) as [|y r].
  - destruct (is_white_space x); [by intros ?%occurs_unit_nil |].
    rewrite !occurs_unit_cons. intros [-> | ?%occurs_unit_nil]; [by left | done].
  - rewrite !occurs_unit_cons. intros [-> | Hr]; [by left |]. right. apply IH.
    by apply occurs_unit_cons.
Qed.

Lemma trim_occurs (c : ascii) (s : string) :
  occurs (String c EmptyString) (trim s) → occurs (String c EmptyString) s.
Proof. intros H. by apply trimStart_occurs, trimEnd_occurs. Qed.

Lemma trim_empty : trim EmptyString = EmptyString.
Proof. reflexivity. Qed.

End JsStringMore.
(** ** Further facts about the recommendation endpoint *)

Module RecommendMore.
Import JsString Js Eff Recommend Spec More JsStringFacts JsStringMore RecommendFacts.

Ltac run_simpl := rewrite ?bind_mret, ?bind_pure.

Lemma read_stream_trace `{Runtime} (events : list stream_event) (d : string) :
  trace (read_stream events d) = [].
Proof.
  revert d. induction events as [|[c| |] events IH]; intros d; cbn [read_stream]; try done.
  by destruct (JSON_parse _).
Qed.

Lemma read_stream_not_thrown `{Runtime} (events : list stream_event) (d : string) (e : exn) :
  result (read_stream events d) ≠ Threw e.
Proof.
  revert d. induction events as [|[c| |] events IH]; intros d; cbn [read_stream]; try done.
  by destruct (JSON_parse _).
Qed.

Lemma read_stream_pending `{Runtime} (events : list stream_event) (d : string) :
  result (read_stream events d) = Pending ↔ only_data events.
Proof.
  unfold only_data. revert d. induction events as [|ev events IH]; intros d.
  - split; [by intros _ ev ?%elem_of_nil | done].
  - destruct ev as [c| |]; cbn [read_stream].
    + rewrite IH. split.
      * intros Hall ev [-> | Hin]%elem_of_cons; eauto.
      * intros Hall ev Hin. apply Hall. by right.
    + split; [by destruct (JSON_parse _) |].
      intros Hall. destruct (Hall End) as [c Hc]; [by left | done].
    + split; [done |].
      intros Hall. destruct (Hall Error) as [c Hc]; [by left | done].
Qed.

Lemma read_body_cases `{Runtime} (req : request) :
  (no_parsed_body req
   ∧ read_body req = Run [EvBodyListen] (result (read_stream (stream req) EmptyString)))
  ∨ (Js.truthy (body req) = true ∧ keys_length (body req) ≠ 0%nat
     ∧ read_body req = Run [] (Done (body req))).
Proof.
  unfold read_body, no_parsed_body.
  destruct (Js.truthy (body req)) eqn:Et; cbn [negb orb].
  - destruct (keys_length (body req) =? 0)%nat eqn:Ek.
    + left. apply Nat.eqb_eq in Ek. split; [by right |].
      unfold mbind, run_bind, emit. cbn [result trace]. rewrite read_stream_trace.
      by destruct (result (read_stream _ _)).
    + right. apply Nat.eqb_neq in Ek. done.
  - left. split; [by left |].
    unfold mbind, run_bind, emit. cbn [result trace]. rewrite read_stream_trace.
    by destruct (result (read_stream _ _)).
Qed.

(** The handler, by the outcome of reading the body. *)
Lemma handler_cases `{Runtime} (w : world) (req : request) :
  handler w req =
  if negb (String.eqb (method req) "POST")
  then Run [] (Done (Response 405 (Send "Method not allowed")))
  else match result (read_body req) with
       | Done b =>
           if nullish b then Run (trace (read_body req)) (Threw TypeError)
           else Run (trace (read_body req) ++ trace (respond w (answers_of b)))
                    (result (respond w (answers_of b)))
       | Threw e => Run (trace (read_body req)) (Threw e)
       | Pending => Run (trace (read_body req)) Pending
       end.
Proof.
  unfold handler. destruct (negb _); [done |].
  unfold mbind at 1, run_bind at 1.
  destruct (result (read_body req)) as [b| |]; [| done..].
  rewrite get_eq. destruct (nullish b); cbn [result trace].
  - by rewrite app_nil_r.
  - run_simpl. done.
Qed.

(** The relay, by what the network answers. *)
Lemma relay_cases `{Runtime} (w : world) (key : string) (answers : value) :
  let init := completion_request key answers in
  let failed e := Run [EvFetch endpoint init; EvConsoleError "Server error:" (LogExn e)]
                      (Done (Response 500 (Send "Server error"))) in
  relay w key answers =
  match network w endpoint init with
  | FetchRejects e => failed e
  | FetchResolves resp =>
      match body_text resp with
      | None => failed (IOError "body")
      | Some t =>
          if ok resp then
            match JSON_parse t with
            | None => failed SyntaxError
            | Some j =>
                if nullish j then failed TypeError
                else Run [EvFetch endpoint init] (result (relay_assistant (assistant_of j)))
            end
          else Run [EvFetch endpoint init; EvConsoleError "OpenAI error:" (LogText t)]
                   (Done (Response 502 (Send "OpenAI API error")))
      end
  | FetchPending => Run [EvFetch endpoint init] Pending
  end.
Proof.
  intros init failed. rewrite relay_unfold, relay_attempt_eq. cbv zeta. fold init.
  destruct (network w endpoint init) as [e | resp |]; [done | | done].
  destruct (body_text resp) as [t|]; [| done].
  destruct (ok resp); [| done].
  destruct (JSON_parse t) as [j|]; [| done].
  destruct (nullish j); [done |].
  by destruct (relay_assistant_done (assistant_of j)) as [v ->].
Qed.

Lemma filter_reads (p : event → bool) (paths : list string) :
  (∀ path, p (EvReadFile path) = false) → List.filter p (EvReadFile <$> paths) = [].
Proof.
  intros Hp. induction paths as [|x paths IH]; [done |].
  cbn [fmap list_fmap List.filter]. rewrite Hp. exact IH.
Qed.

Lemma filter_read_body `{Runtime} (p : event → bool) (req : request) :
  p EvBodyListen = false → List.filter p (trace (read_body req)) = [].
Proof.
  intros Hp. destruct (read_body_cases req) as [[_ ->] | (_ & _ & ->)]; [| done].
  cbn. by rewrite Hp.
Qed.

Lemma fallback_pick_outcome (answers : value) :
  (∃ pick, fallback_pick answers = Run [] (Done pick))
  ∨ fallback_pick answers = Run [] (Threw TypeError).
Proof.
  unfold fallback_pick. rewrite !get_eq.
  destruct (nullish answers); [by right |]. run_simpl.
  destruct (array_includes _ "panama"); [left; by eexists |].
  destruct (array_includes _ "belize"); [left; by eexists |].
  destruct (Js.truthy _); [| left; by eexists].
  destruct (if Js.truthy (field answers "relocationType")
            then field answers "relocationType" else JStr EmptyString);
    first [by right | left; by eexists].
Qed.

Lemma fallback_outcome (answers : value) :
  (∃ pick, fallback answers = Run [] (fallback_reply pick))
  ∨ fallback answers = Run [] (Threw TypeError).
Proof.
  rewrite fallback_unfold.
  destruct (fallback_pick_outcome answers) as [[pick ->] | ->]; [left; by exists pick | by right].
Qed.

Lemma respond_trace `{Runtime} (w : world) (answers : value) (p : event → bool) :
  (∀ path, p (EvReadFile path) = false) →
  List.filter p (trace (respond w answers)) =
  match result (getApiKey w) with
  | Done (Some key) => List.filter p (trace (relay w key answers))
  | _ => []
  end.
Proof.
  intros Hp. destruct (getApiKey_done w) as [k Hk].
  rewrite (respond_unfold _ _ _ Hk), Hk. cbv zeta. cbn [trace].
  rewrite List.filter_app, getApiKey_resolve. cbn [trace]. rewrite (filter_reads _ _ Hp).
  destruct k as [key|]; [done |].
  by destruct (fallback_outcome answers) as [[pick ->] | ->].
Qed.


(** The relay calls the network once, whatever comes of it. *)
Lemma relay_fetches `{Runtime} (w : world) (key : string) (answers : value) :
  List.filter is_fetch (trace (relay w key answers))
  = [EvFetch endpoint (completion_request key answers)].
Proof.
  rewrite relay_cases. cbv zeta.
  destruct (network w endpoint _) as [e | resp |]; [done | | done].
  destruct (body_text resp) as [t|]; [| done].
  destruct (ok resp); [| done].
  destruct (JSON_parse t) as [j|]; [| done].
  by destruct (nullish j).
Qed.

(** A reply of the relay, with what it writes to the error console: the
    text of the upstream answer that reports failure, or the exception the
    attempt threw. *)
Lemma relay_logs `{Runtime} (w : world) (key : string) (answers : value) (resp : response) :
  result (relay w key answers) = Done resp →
  (status resp = 200%Z ∧ (∃ v, sent resp = Json v)
   ∧ List.filter is_console_error (trace (relay w key answers)) = [])
  ∨ (resp = Response 502 (Send "OpenAI API error")
     ∧ ∃ up txt, network w endpoint (completion_request key answers) = FetchResolves up
                 ∧ ok up = false ∧ body_text up = Some txt
                 ∧ List.filter is_console_error (trace (relay w key answers))
                   = [EvConsoleError "OpenAI error:" (LogText txt)])
  ∨ (resp = Response 500 (Send "Server error")
     ∧ ∃ e, result (relay_attempt w key answers) = Threw e
            ∧ List.filter is_console_error (trace (relay w key answers))
              = [EvConsoleError "Server error:" (LogExn e)]).
Proof.
  rewrite relay_cases, relay_attempt_eq. cbv zeta.
  destruct (network w endpoint _) as [e | up |] eqn:Enet; [| | done].
  { intros [= <-]. right. right. eauto. }
  destruct (body_text up) as [t|] eqn:Et.
  2: { intros [= <-]. right. right. eauto. }
  destruct (ok up) eqn:Eok.
  2: { intros [= <-]. right. left. split; [done |]. exists up, t. auto. }
  destruct (JSON_parse t) as [j|].
  2: { intros [= <-]. right. right. eauto. }
  destruct (nullish j).
  { intros [= <-]. right. right. eauto. }
  destruct (relay_assistant_done (assistant_of j)) as [v ->].
  intros [= <-]. left. cbn. eauto.
Qed.

(** X1. Every reply of the handler is one of four: 405 "Method not allowed"
    for a request that is not a POST, with nothing done before; 200 with a
    JSON payload and nothing written to the error console; 502 "OpenAI API
    error" when, with the resolved credential and the answers of the body
    that was read, the upstream answer reports failure, with one console
    line, the text of that answer; 500 "Server error" when the attempt to
    relay throws, with one console line, the exception thrown. *)
Theorem handler_reply_cases `{Runtime} (w : world) (req : request) (resp : response) :
  result (handler w req) = Done resp →
  let logs := List.filter is_console_error (trace (handler w req)) in
  (method req ≠ "POST" ∧ resp = Response 405 (Send "Method not allowed")
   ∧ trace (handler w req) = [])
  ∨ (method req = "POST" ∧ status resp = 200%Z ∧ (∃ v, sent resp = Json v) ∧ logs = [])
  ∨ (method req = "POST" ∧ resp = Response 502 (Send "OpenAI API error")
     ∧ ∃ key b up txt,
         result (getApiKey w) = Done (Some key)
         ∧ result (read_body req) = Done b
         ∧ network w endpoint (completion_request key (answers_of b)) = FetchResolves up
         ∧ ok up = false ∧ body_text up = Some txt
         ∧ logs = [EvConsoleError "OpenAI error:" (LogText txt)])
  ∨ (method req = "POST" ∧ resp = Response 500 (Send "Server error")
     ∧ ∃ key b e,
         result (getApiKey w) = Done (Some key)
         ∧ result (read_body req) = Done b
         ∧ result (relay_attempt w key (answers_of b)) = Threw e
         ∧ logs = [EvConsoleError "Server error:" (LogExn e)]).
Proof.
  rewrite handler_cases. destruct (String.eqb (method req) "POST") eqn:Em; cbn [negb].
  { apply String.eqb_eq in Em.
    destruct (result (read_body req)) as [b| |] eqn:Eb; [| done..].
    destruct (nullish b); [done |]. cbn [result trace]. intros Hr. cbv zeta.
    rewrite List.filter_app, (filter_read_body is_console_error req eq_refl), app_nil_l.
    rewrite respond_trace by done.
    destruct (getApiKey_done w) as [k Hk]. rewrite (respond_unfold _ _ _ Hk) in Hr.
    cbv zeta in Hr. cbn [result] in Hr. rewrite Hk. destruct k as [key|].
    - right.
      destruct (relay_logs w key (answers_of b) resp Hr)
        as [(? & ? & ?) | [(? & up & txt & ? & ? & ? & ?) | (? & e & ? & ?)]].
      + by left.
      + right. left. split; [done |]. split; [done |]. exists key, b, up, txt. done.
      + right. right. split; [done |]. split; [done |]. exists key, b, e. done.
    - right. left. split; [done |]. split; [by apply fallback_done_status in Hr |].
      split; [| done]. rewrite fallback_unfold in Hr.
      destruct (result (fallback_pick _)); cbn in Hr; [| done..]. injection Hr as <-.
      by eexists. }
  apply String.eqb_neq in Em. cbn [result trace]. intros [= <-]. cbv zeta. by left.
Qed.

(** X2. An exception escapes the handler only as a TypeError, and only in
    two situations: the body that was read is [null] (or [undefined]), or no
    credential resolves and the fallback branch throws on the answers. *)
Theorem handler_throws_only_type_error `{Runtime} (w : world) (req : request) (e : exn) :
  result (handler w req) = Threw e →
  e = TypeError ∧ method req = "POST"
  ∧ ∃ b, result (read_body req) = Done b
         ∧ (nullish b = true
            ∨ (result (getApiKey w) = Done None
               ∧ result (fallback (answers_of b)) = Threw TypeError)).
Proof.
  rewrite handler_cases. destruct (String.eqb (method req) "POST") eqn:Em; cbn [negb]; [| done].
  apply String.eqb_eq in Em.
  destruct (result (read_body req)) as [b| e' |] eqn:Eb; [| | done].
  - destruct (nullish b) eqn:En; cbn [result].
    + intros [= <-]. split; [done |]. split; [done |]. exists b. auto.
    + destruct (getApiKey_done w) as [k Hk]. rewrite (respond_unfold _ _ _ Hk).
      cbv zeta. cbn [result]. destruct k as [key|].
      * by destruct (relay_outcome w key (answers_of b)) as [(r & -> & _) | [-> _]].
      * intros Hf. assert (e = TypeError) as ->.
        { destruct (fallback_outcome (answers_of b)) as [[pick Hp] | Hp];
            rewrite Hp in Hf; cbn in Hf; unfold fallback_reply in Hf; congruence. }
        split; [done |]. split; [done |]. exists b. auto.
  - exfalso. destruct (read_body_cases req) as [[_ Hrb] | (_ & _ & Hrb)];
      rewrite Hrb in Eb; cbn [result] in Eb; [| done].
    by apply read_stream_not_thrown in Eb.
Qed.

(** X3. The handler stays pending, neither replying nor throwing, in two
    situations and no other.  Either the request is a POST whose body the
    platform did not parse and whose stream neither ends nor fails; or the
    request is a POST whose body is read and is not [null] (or [undefined]),
    a credential resolves, and the upstream call made with that credential
    and the answers of the body never settles. *)
Theorem handler_pending_iff `{Runtime} (w : world) (req : request) :
  result (handler w req) = Pending ↔
  method req = "POST"
  ∧ ((no_parsed_body req ∧ only_data (stream req))
     ∨ (∃ b key,
          result (read_body req) = Done b ∧ nullish b = false
          ∧ result (getApiKey w) = Done (Some key)
          ∧ network w endpoint (completion_request key (answers_of b)) = FetchPending)).
Proof.
  rewrite handler_cases. destruct (String.eqb (method req) "POST") eqn:Em; cbn [negb].
  2: { apply String.eqb_neq in Em. split; [done | by intros [? _]]. }
  apply String.eqb_eq in Em.
  assert (∀ b, result (respond w (answers_of b)) = Pending ↔
               ∃ key, result (getApiKey w) = Done (Some key)
                      ∧ network w endpoint (completion_request key (answers_of b))
                        = FetchPending) as Hresp.
  { intros b. destruct (getApiKey_done w) as [k Hk]. rewrite (respond_unfold _ _ _ Hk).
    cbv zeta. cbn [result]. rewrite Hk. destruct k as [key|].
    - split.
      + intros Hp. exists key. split; [done |].
        destruct (relay_outcome w key (answers_of b)) as [(r & Hr & _) | [_ Hn]]; [| done].
        congruence.
      + intros (key' & [= <-] & Hn). rewrite relay_cases. cbv zeta. by rewrite Hn.
    - split; [| by intros (? & ? & _)].
      by destruct (fallback_outcome (answers_of b)) as [[pick ->] | ->]. }
  split.
  - destruct (result (read_body req)) as [b| |] eqn:Eb; cbn [result].
    + destruct (nullish b) eqn:En; cbn [result]; [done |].
      intros (key & Hk & Hn)%Hresp. split; [done |]. right. by exists b, key.
    + done.
    + intros _. split; [done |]. left.
      destruct (read_body_cases req) as [[Hno Hrb] | (_ & _ & Hrb)];
        rewrite Hrb in Eb; cbn [result] in Eb; [| done].
      split; [done |]. by apply read_stream_pending in Eb.
  - intros [_ [[Hno Hd] | (b & key & Hb & En & Hk & Hn)]].
    + destruct (read_body_cases req) as [[_ Hrb] | (Ht & Hz & _)].
      * apply (read_stream_pending _ EmptyString) in Hd.
        rewrite Hrb. cbn [result]. by rewrite Hd.
      * destruct Hno; congruence.
    + rewrite Hb, En. cbn [result]. apply Hresp. by exists key.
Qed.

(** X4. A body that arrives over the request stream is served like the
    same body parsed by the platform: when the chunks, put together, are a
    non-empty text that parses to a truthy value with at least one key, the
    handler does on the stream what it does on that value as [req.body],
    after listening to the stream. *)
Theorem streamed_body_as_parsed_body `{Runtime} (w : world) (b0 v : value)
    (chunks : list string) (rest events : list stream_event) :
  Js.truthy b0 = false ∨ keys_length b0 = 0%nat →
  foldl String.append EmptyString chunks ≠ EmptyString →
  JSON_parse (foldl String.append EmptyString chunks) = Some v →
  Js.truthy v = true → keys_length v ≠ 0%nat →
  handler w (Request "POST" b0 (map Data chunks ++ End :: rest))
  = Run (EvBodyListen :: trace (handler w (Request "POST" v events)))
        (result (handler w (Request "POST" v events))).
Proof.
  intros Hb0 Hd Hparse Ht Hk. rewrite !handler_cases. cbn [method negb String.eqb].
  assert (read_body (Request "POST" v events) = Run [] (Done v)) as ->.
  { destruct (read_body_cases (Request "POST" v events)) as [[[Hf | Hz] _] | (_ & _ & E)];
      cbn [body] in *; [congruence | congruence | done]. }
  assert (read_body (Request "POST" b0 (map Data chunks ++ End :: rest))
          = Run [EvBodyListen] (Done v)) as ->.
  { destruct (read_body_cases (Request "POST" b0 (map Data chunks ++ End :: rest)))
      as [[_ E] | (Hf & Hz & _)]; cbn [body stream] in *.
    - rewrite E, read_stream_chunks by done. cbn [read_stream].
      destruct (foldl String.append EmptyString chunks); [done |].
      cbn [JsString.truthy]. by rewrite Hparse.
    - destruct Hb0; congruence. }
  cbn [result trace]. by destruct (nullish v).
Qed.

(** X5. The handler calls the network at most once, and only the
    completion endpoint with the request built from the resolved credential
    and the answers of the body; without a credential it makes no call and
    writes nothing to the error console. *)
Theorem handler_fetches_at_most_once `{Runtime} (w : world) (req : request) :
  (List.filter is_fetch (trace (handler w req)) = []
   ∨ ∃ key b,
       method req = "POST"
       ∧ result (getApiKey w) = Done (Some key)
       ∧ result (read_body req) = Done b
       ∧ List.filter is_fetch (trace (handler w req))
         = [EvFetch endpoint (completion_request key (answers_of b))])
  ∧ (result (getApiKey w) = Done None →
     List.filter is_fetch (trace (handler w req)) = []
     ∧ List.filter is_console_error (trace (handler w req)) = []).
Proof.
  rewrite handler_cases. destruct (String.eqb (method req) "POST") eqn:Em; cbn [negb].
  2: { split; [by left | done]. }
  apply String.eqb_eq in Em.
  destruct (result (read_body req)) as [b| |] eqn:Eb; cbn [trace].
  2, 3: rewrite !filter_read_body by done; split; [by left | done].
  destruct (nullish b); cbn [trace].
  { rewrite !filter_read_body by done. split; [by left | done]. }
  rewrite !List.filter_app, !filter_read_body, !app_nil_l, !respond_trace by done.
  destruct (getApiKey_done w) as [[key|] Hk]; rewrite Hk.
  - split; [| done]. right. exists key, b.
    by rewrite relay_fetches.
  - split; [by left | done].
Qed.

(** X6. A credential that resolves has no white space at either end and is
    not empty: trimming it again changes nothing. *)
Theorem getApiKey_trimmed (w : world) (k : string) :
  result (getApiKey w) = Done (Some k) →
  k ≠ EmptyString ∧ clean_ends k ∧ trim k = k.
Proof.
  intros Hk. split; [apply getApiKey_truthy in Hk; by destruct k |].
  rewrite getApiKey_resolve in Hk. cbn [result] in Hk.
  assert ((resolve (credential_sources w)).2 = Some k) as E by congruence.
  apply resolve_found in E as (s & Hin & Hf).
  apply credential_sources_nonblank in Hin as [o Ho]. rewrite Ho in Hf.
  destruct o as [v|]; [| done]. cbn [nonblank] in Hf.
  assert (k = trim v) as -> by (destruct (trim v); congruence).
  apply trim_clean.
Qed.

(** X7. With a credential, an upstream answer that reports success but
    whose body is not JSON, or is the JSON [null], is answered 500 "Server
    error". *)
Theorem unreadable_success_is_server_error `{Runtime} (w : world) (key : string)
    (answers : value) (resp : upstream_response) (t : string) :
  result (getApiKey w) = Done (Some key) →
  network w endpoint (completion_request key answers) = FetchResolves resp →
  ok resp = true → body_text resp = Some t →
  JSON_parse t = None ∨ (∃ j, JSON_parse t = Some j ∧ nullish j = true) →
  result (respond w answers) = Done (Response 500 (Send "Server error")).
Proof.
  intros Hk Hnet Hok Hbody Hbad. rewrite (respond_unfold _ _ _ Hk). cbv zeta. cbn [result].
  rewrite relay_cases. cbv zeta. rewrite Hnet, Hbody, Hok.
  destruct Hbad as [-> | (j & -> & ->)]; done.
Qed.

(** X8. The fallback branch reads nothing of the answers but
    [destinations] and [relocationType]: two answers that agree on both get
    the same outcome. *)
Theorem fallback_reads_two_members (answers answers' : value) :
  nullish answers = false → nullish answers' = false →
  field answers "destinations" = field answers' "destinations" →
  field answers "relocationType" = field answers' "relocationType" →
  fallback answers = fallback answers'.
Proof.
  intros Hn Hn' Hd Hr. unfold fallback, fallback_pick.
  by rewrite !get_eq, Hn, Hn', Hd, Hr.
Qed.

(** X9. With a credential and a successful upstream answer, a content that is
    truthy but neither a string nor an array (a number, [true], an object)
    is relayed as it is under [text], with status 200: [indexOf] cannot be
    called on it and the inner handler takes over. *)
Theorem odd_content_relayed_as_text `{Runtime} (w : world) (key : string)
    (answers : value) (resp : upstream_response) (t : string) (j : value) :
  network w endpoint (completion_request key answers) = FetchResolves resp →
  ok resp = true → body_text resp = Some t → JSON_parse t = Some j → nullish j = false →
  Js.truthy (content_path j) = true →
  (∀ s, content_path j ≠ JStr s) → isArray (content_path j) = false →
  result (relay w key answers)
  = Done (Response 200 (Json (JObj [ ("text", content_path j) ]))).
Proof.
  intros Hnet Hok Hbody Hparse Hj Ht Hs Ha.
  rewrite relay_cases. cbv zeta. rewrite Hnet, Hbody, Hok, Hparse, Hj.
  unfold assistant_of. rewrite Ht. cbn [result].
  unfold relay_assistant, try_catch.
  destruct (content_path j) as [| |b|q|s|items|fields]; try done.
  by destruct (Hs s).
Qed.

(** X19. [tryReadFileSync] never throws, whatever the file system: it reads
    the one path it is given and returns either nothing, when the file
    cannot be read or is blank, or the trimmed content, which is then not
    empty and has no white space at either end. *)
Theorem tryReadFileSync_total (w : world) (path : string) :
  ∃ o, tryReadFileSync w path = Run [EvReadFile path] (Done o)
       ∧ (o = None ↔
          files w !! path = None
          ∨ ∃ content, files w !! path = Some content ∧ trim content = EmptyString)
       ∧ (∀ k, o = Some k →
          k ≠ EmptyString ∧ clean_ends k
          ∧ ∃ content, files w !! path = Some content ∧ k = trim content).
Proof.
  rewrite tryReadFileSync_eq. eexists. split; [done |].
  destruct (files w !! path) as [content|]; cbn [nonblank].
  - destruct (trim content) as [|c t] eqn:E.
    + split; [| done]. split; [| done]. intros _. right. by exists content.
    + split.
      * split; [done |]. intros [? | (c0 & [= <-] & Ec)]; [done | congruence].
      * intros k [= <-]. split; [done |]. rewrite <- E.
        split; [apply trim_clean | by exists content].
  - split; [| done]. split; [by left | done].
Qed.

(** X20. Reading the request stream stops at the first end or error: what
    the stream delivers afterwards changes nothing, the chunks before it are
    put together in order, and an error gives the empty object even when
    the chunks received so far are a complete JSON text. *)
Theorem read_stream_settles_once `{Runtime} (chunks : list string)
    (rest rest' : list stream_event) :
  read_stream (map Data chunks ++ End :: rest) EmptyString
  = read_stream (map Data chunks ++ End :: rest') EmptyString
  ∧ read_stream (map Data chunks ++ End :: rest) EmptyString
    = Run [] (Done (default (JObj [])
                      (JSON_parse (match foldl String.append EmptyString chunks with
                                   | EmptyString => "{}"
                                   | d => d
                                   end))))
  ∧ read_stream (map Data chunks ++ Error :: rest) EmptyString = Run [] (Done (JObj [])).
Proof.
  rewrite !read_stream_chunks by done. cbn [read_stream]. split; [done |]. split; [| done].
  destruct (foldl String.append EmptyString chunks); cbn [JsString.truthy];
    by destruct (JSON_parse _).
Qed.

(** *** The further theorems at sample inputs *)

Lemma handler_reply_cases_witness :
  let w := Demo.keyed_world (FetchResolves (Upstream false (Some "quota exceeded"))) in
  let req := Request "POST" JUndefined [ Data "{}"; End ] in
  let resp := Response 502 (Send "OpenAI API error") in
  result (handler (H := Demo.runtime) w req) = Done resp
  ∧ List.filter is_console_error (trace (handler (H := Demo.runtime) w req))
    = [EvConsoleError "OpenAI error:" (LogText "quota exceeded")].
Proof.
  intros w req resp.
  assert (result (handler (H := Demo.runtime) w req) = Done resp) as Hr
    by (vm_compute; reflexivity).
  split; [exact Hr |].
  destruct (handler_reply_cases (H := Demo.runtime) w req resp Hr)
    as [(_ & E & _) | [(_ & E & _) | [(_ & _ & Hlog) | (_ & E & _)]]];
    [discriminate E | discriminate E | | discriminate E].
  destruct Hlog as (key & b & up & txt & Hk & Hb & Hnet & _ & Htxt & ->).
  assert (key = "sk-first") as -> by (vm_compute in Hk; congruence).
  assert (b = JObj []) as -> by (vm_compute in Hb; congruence).
  assert (up = Upstream false (Some "quota exceeded")) as ->
    by (vm_compute in Hnet; congruence).
  cbn [body_text] in Htxt. by injection Htxt as <-.
Defined.

Lemma handler_throws_only_type_error_witness :
  let req := Request "POST" JUndefined [ Data "null"; End ] in
  result (handler (H := Demo.runtime) Demo.bare_world req) = Threw TypeError
  ∧ method req = "POST".
Proof.
  intros req.
  assert (result (handler (H := Demo.runtime) Demo.bare_world req) = Threw TypeError) as Ht
    by (vm_compute; reflexivity).
  split; [exact Ht |].
  exact (proj1 (proj2 (handler_throws_only_type_error (H := Demo.runtime)
                         Demo.bare_world req TypeError Ht))).
Defined.

Lemma streamed_body_as_parsed_body_witness :
  let v := JObj [ ("answers", JObj [ ("destinations", JArr [ JStr "belize" ]) ]) ] in
  let chunks := [ "{" +:+ Demo.quoted "answers" +:+ ":{" +:+ Demo.quoted "destinations";
                  ":[" +:+ Demo.quoted "belize" +:+ "]}}" ] in
  JSON_parse (Runtime := Demo.runtime) (foldl String.append EmptyString chunks) = Some v
  ∧ handler (H := Demo.runtime) Demo.bare_world
      (Request "POST" JUndefined (map Data chunks ++ [ End ]))
    = Run (EvBodyListen :: trace (handler (H := Demo.runtime) Demo.bare_world
                                    (Request "POST" v [])))
          (result (handler (H := Demo.runtime) Demo.bare_world (Request "POST" v []))).
Proof.
  intros v chunks.
  assert (JSON_parse (Runtime := Demo.runtime) (foldl String.append EmptyString chunks) = Some v)
    as Hp by (vm_compute; reflexivity).
  split; [exact Hp |].
  apply (streamed_body_as_parsed_body (H := Demo.runtime) Demo.bare_world JUndefined v chunks
           [] []); [by left | vm_compute; discriminate | exact Hp | reflexivity |].
  vm_compute. discriminate.
Defined.

Lemma getApiKey_trimmed_witness :
  result (getApiKey Demo.file_world) = Done (Some "sk-file")
  ∧ "sk-file" ≠ EmptyString ∧ clean_ends "sk-file" ∧ trim "sk-file" = "sk-file".
Proof.
  assert (result (getApiKey Demo.file_world) = Done (Some "sk-file")) as Hk
    by (vm_compute; reflexivity).
  exact (conj Hk (getApiKey_trimmed Demo.file_world "sk-file" Hk)).
Defined.

Lemma unreadable_success_is_server_error_witness :
  let w := Demo.keyed_world (FetchResolves (Upstream true (Some "<html>Bad gateway</html>"))) in
  result (getApiKey w) = Done (Some "sk-first")
  ∧ result (respond (H := Demo.runtime) w (JObj [])) = Done (Response 500 (Send "Server error")).
Proof.
  intros w. split; [reflexivity |].
  apply (unreadable_success_is_server_error (H := Demo.runtime) w "sk-first" (JObj [])
           (Upstream true (Some "<html>Bad gateway</html>")) "<html>Bad gateway</html>");
    [reflexivity | reflexivity | reflexivity | reflexivity |].
  left. vm_compute. reflexivity.
Defined.

Lemma fallback_reads_two_members_witness :
  let answers := JObj [ ("budget", JNum 1200); ("destinations", JStr "belize") ] in
  let answers' := JObj [ ("destinations", JStr "belize"); ("climate", JStr "dry") ] in
  fallback answers = fallback answers'.
Proof.
  intros answers answers'.
  exact (fallback_reads_two_members answers answers' eq_refl eq_refl eq_refl eq_refl).
Defined.

Lemma odd_content_relayed_as_text_witness :
  let j := JObj [ ("choices", JArr [ JObj [ ("message", JObj [ ("content", JNum 42) ]) ] ]) ] in
  let w := Demo.keyed_world (FetchResolves (Upstream true (Some (Demo.print j)))) in
  result (relay (H := Demo.runtime) w "sk-first" (JObj []))
  = Done (Response 200 (Json (JObj [ ("text", JNum 42) ]))).
Proof.
  intros j w.
  apply (odd_content_relayed_as_text (H := Demo.runtime) w "sk-first" (JObj [])
           (Upstream true (Some (Demo.print j))) (Demo.print j) j);
    [reflexivity | reflexivity | reflexivity | vm_compute; reflexivity | reflexivity
    | reflexivity | by intros s | reflexivity].
Defined.
End RecommendMore.
(** ** Further facts about the navigation highlighters *)

Module ShimmerMore.
Import JsString Shimmer Spec More JsStringFacts JsStringMore ShimmerFacts.

Lemma truthy_nonempty (s : string) : JsString.truthy s = true ↔ s ≠ EmptyString.
Proof. by destruct s. Qed.

(** X10. Every filename under which an anchor is recorded is a bare,
    lower-case, non-empty name: it holds no "/", and lower-casing it again
    changes nothing. *)
Theorem recorded_filenames_normalised (d : document) (v : variant) (f : string) (a : nat) :
  (f, a) ∈ recorded d v →
  f ≠ EmptyString ∧ toLowerCase f = f ∧ ¬ occurs "/" f.
Proof.
  intros Hin. destruct (recorded_well_filed d v) as [_ Hfiled].
  destruct (proj1 (filename_of_Some d a f) (Hfiled _ _ Hin))
    as (e & href & _ & _ & _ & _ & -> & Hne).
  split; [done |]. split; [apply toLowerCase_idempotent |].
  intros Hs%toLowerCase_slash. by apply (split_pieces "/" href _ (pop_split_elem "/" href)).
Qed.

(** X11. The current page is a bare, lower-case, non-empty name, and it is
    "index.html" when the path is empty or ends with "/". *)
Theorem current_normalised (d : document) :
  current d ≠ EmptyString
  ∧ toLowerCase (current d) = current d
  ∧ ¬ occurs "/" (current d)
  ∧ (pathname d = EmptyString ∨ (∃ p, pathname d = p +:+ "/") → current d = "index.html").
Proof.
  unfold current. cbv zeta. split; [| split; [| split]].
  - destruct (JsString.truthy _) eqn:E; [| done].
    apply truthy_nonempty in E. by rewrite toLowerCase_empty.
  - apply toLowerCase_idempotent.
  - intros Hs%toLowerCase_slash. destruct (JsString.truthy _) eqn:E.
    + by apply (split_pieces "/" (pathname d) _ (pop_split_elem "/" (pathname d))).
    + revert Hs. by apply includes_false_iff.
  - intros [-> | [p ->]]; [done |]. by rewrite pop_split_trailing.
Qed.


Lemma recorded_elem_of (d : document) (v : variant) (f : string) (a : nat) :
  (f, a) ∈ recorded d v ↔ map_get f (recorded d v) = Some a.
Proof. apply map_get_elem_of, recorded_well_filed. Qed.

(** X12. In the second script, with a destination list that is not empty,
    the anchors recorded are exactly, for each filename, the first anchor of
    the scan filed under it. *)
Theorem data_driven_records_first (d : document) (f : string) (a : nat) :
  destinationPages_data d ≠ [] →
  (f, a) ∈ recorded d DataDriven ↔ head (qualifying d DataDriven f) = Some a.
Proof.
  intros Hne. rewrite recorded_elem_of. unfold recorded.
  destruct (destinationPages_data d) as [|x l]; [done |]. cbn [length Nat.eqb].
  by rewrite data_driven_first_wins.
Qed.

(** X13. In the first script, the anchors recorded are exactly, for each
    filename, the last anchor of the scan filed under it. *)
Theorem fixed_list_records_last (d : document) (f : string) (a : nat) :
  (f, a) ∈ recorded d FixedList ↔ last (qualifying d FixedList f) = Some a.
Proof. rewrite recorded_elem_of. unfold recorded. by rewrite fixed_list_last_wins. Qed.

(** X14. Of two different anchors with the same normalised filename, a run
    leaves at least one exactly as it was: at most one anchor per filename
    is decorated or cleaned. *)
Theorem one_anchor_per_filename (d : document) (v : variant) (f : string) (a a' : nat) :
  a ≠ a' → filename_of d a = Some f → filename_of d a' = Some f →
  run_script d v !! a = elements d !! a ∨ run_script d v !! a' = elements d !! a'.
Proof.
  intros Hne Hf Hf'.
  destruct (decide (a ∈ (recorded d v).*2)) as [Hin | Hnot]; [| left; by apply unrecorded_lookup].
  right. apply unrecorded_lookup.
  intros ([f2 a2] & -> & Hin')%list_elem_of_fmap. cbn [snd] in *.
  apply list_elem_of_fmap in Hin as ([f1 a1] & -> & Hin). cbn [snd] in *.
  destruct (recorded_well_filed d v) as [_ Hfiled].
  assert (f1 = f) as -> by (pose proof (Hfiled _ _ Hin); congruence).
  assert (f2 = f) as -> by (pose proof (Hfiled _ _ Hin'); congruence).
  apply recorded_elem_of in Hin, Hin'. congruence.
Qed.

Lemma classList_add_idempotent (tok : string) (e : element) :
  classList_add tok (classList_add tok e) = classList_add tok e.
Proof.
  unfold classList_add. cbn [attrs classList contains_img contains_svg].
  destruct (bool_decide (tok ∈ classList e)) eqn:E.
  - by rewrite E.
  - rewrite bool_decide_eq_true_2; [done |].
    apply elem_of_app. right. by apply list_elem_of_singleton.
Qed.

Lemma classList_remove_idempotent (tok : string) (e : element) :
  classList_remove tok (classList_remove tok e) = classList_remove tok e.
Proof.
  unfold classList_remove. cbn [attrs classList contains_img contains_svg]. f_equal.
  rewrite list_filter_filter. apply list_filter_iff. tauto.
Qed.

Lemma decorated_idempotent (d : document) (v : variant) (f : string) (e : element) :
  decorated d v f (decorated d v f e) = decorated d v f e.
Proof.
  unfold decorated. destruct (bool_decide _ && negb _); [| apply classList_remove_idempotent].
  destruct v; [| apply classList_add_idempotent].
  unfold setAttribute, getAttribute.
  cbn [attrs classList contains_img contains_svg classList_add].
  set (t := match attrs e !! "tabindex" with
            | Some t => if JsString.truthy t then t else "0"
            | None => "0"
            end).
  assert (JsString.truthy t = true) as Ht.
  { subst t. destruct (attrs e !! "tabindex") as [t|]; [| done].
    by destruct (JsString.truthy t) eqn:E. }
  rewrite lookup_insert_eq, Ht, insert_insert_eq.
  f_equal. destruct (bool_decide ("shimmer" ∈ classList e)) eqn:E; [by rewrite E |].
  rewrite bool_decide_eq_true_2; [done |].
  apply elem_of_app. right. by apply list_elem_of_singleton.
Qed.

(** The links of an element: what the scan reads of it. *)
Lemma decorated_links (d : document) (v : variant) (f : string) (e : element) :
  attrs (decorated d v f e) !! "href" = attrs e !! "href"
  ∧ contains_img (decorated d v f e) = contains_img e
  ∧ contains_svg (decorated d v f e) = contains_svg e.
Proof.
  destruct (decorated_framed d v f e) as (Hi & Hs & _ & [-> | (_ & _ & _ & ->)]); [done |].
  by rewrite lookup_insert_ne.
Qed.

Lemma filename_of_after_run (d : document) (v : variant) (a : nat) :
  filename_of (with_elements d (run_script d v)) a = filename_of d a.
Proof.
  unfold filename_of, getAttribute. cbn [elements with_elements].
  destruct (decide (a ∈ (recorded d v).*2)) as [Hin | Hnot].
  - apply list_elem_of_fmap in Hin as ([f a'] & -> & Hin). cbn [snd].
    rewrite (recorded_lookup _ _ _ _ Hin).
    destruct (elements d !! a') as [e|]; cbn [fmap option_fmap option_map]; [| done].
    destruct (decorated_links d v f e) as (-> & -> & ->). done.
  - by rewrite (unrecorded_lookup _ _ _ Hnot).
Qed.

Lemma foldl_visit_ext (d1 d2 : document) (v : variant) (nodes : list nat) (m : anchor_map) :
  (∀ a, filename_of d1 a = filename_of d2 a) →
  foldl (visit d1 v) m nodes = foldl (visit d2 v) m nodes.
Proof.
  intros Hf. revert m. induction nodes as [|a nodes IH]; intros m; [done |].
  cbn [foldl]. rewrite IH. unfold visit. by rewrite Hf.
Qed.

Lemma recorded_after_run (d : document) (v : variant) :
  recorded (with_elements d (run_script d v)) v = recorded d v.
Proof.
  assert (collect (with_elements d (run_script d v)) v = collect d v) as Hc.
  { rewrite !collect_scan.
    change (scan (with_elements d (run_script d v)) v) with (scan d v).
    apply foldl_visit_ext, filename_of_after_run. }
  destruct v; unfold recorded; [exact Hc |].
  change (destinationPages_data (with_elements d (run_script d DataDriven)))
    with (destinationPages_data d).
  by rewrite Hc.
Qed.

Lemma run_twice (d : document) (v : variant) :
  run_script (with_elements d (run_script d v)) v = run_script d v.
Proof.
  unfold run_script at 1. rewrite recorded_after_run. cbn [elements with_elements].
  change (apply_all (with_elements d (run_script d v)) v) with (apply_all d v).
  apply map_eq. intros a.
  destruct (decide (a ∈ (recorded d v).*2)) as [Hin | Hnot].
  - apply list_elem_of_fmap in Hin as ([f a'] & -> & Hin). cbn [snd].
    rewrite (apply_all_recorded d v _ _ f a');
      [| apply well_filed_anchors_NoDup with d, recorded_well_filed | done].
    rewrite (recorded_lookup _ _ _ _ Hin).
    destruct (elements d !! a') as [e|]; cbn [fmap option_fmap option_map]; [| done].
    by rewrite decorated_idempotent.
  - by rewrite apply_all_other.
Qed.

(** X15. A run is idempotent: running a script again on the page it left
    changes nothing more. *)
Theorem run_script_idempotent (d : document) (v : variant) :
  run_script (with_elements d (run_script d v)) v = run_script d v.
Proof. apply run_twice. Qed.

(** X16. The re-invocation entry point of the second script does, on a page
    [d], what the script itself does on the elements and node lists of [d]
    with the destination list and the current page read when the script
    first ran on [d0]; called on the page the script left, it changes
    nothing. *)
Theorem shimmerReapply_reruns (d0 d : document) :
  destinationPages_data d0 ≠ [] →
  shimmerReapply d0 d = run_script (rebased d0 d) DataDriven
  ∧ shimmerReapply d0 (with_elements d0 (run_script d0 DataDriven))
    = run_script d0 DataDriven.
Proof.
  intros Hne.
  assert (∀ d, shimmerReapply d0 d = run_script (rebased d0 d) DataDriven) as Hre.
  { intros d1. unfold run_script, recorded.
    change (destinationPages_data (rebased d0 d1)) with (destinationPages_data d0).
    destruct (length (destinationPages_data d0) =? 0)%nat eqn:E.
    - apply Nat.eqb_eq in E. by destruct (destinationPages_data d0).
    - reflexivity. }
  split; [apply Hre |]. rewrite Hre.
  change (rebased d0 (with_elements d0 (run_script d0 DataDriven)))
    with (with_elements d0 (run_script d0 DataDriven)).
  apply run_twice.
Qed.

Lemma destinationPages_data_eq (d : document) :
  destinationPages_data d =
  filter (λ s, JsString.truthy s = true)
         (map (λ s, toLowerCase (trim s)) (split "," (raw_destinations d))).
Proof.
  assert (∀ r, (if JsString.truthy r then r else EmptyString) = r) as Hid by (by intros []).
  unfold destinationPages_data. cbv zeta.
  assert (match body_attrs d with
          | Some battrs =>
              match battrs !! "data-destinations" with
              | Some r => if JsString.truthy r then r else EmptyString
              | None => EmptyString
              end
          | None => EmptyString
          end = raw_destinations d) as ->.
  { unfold raw_destinations. destruct (body_attrs d) as [b|]; [| done].
    destruct (b !! "data-destinations"); [| done]. by rewrite Hid. }
  f_equal. apply List.map_ext. intros p. by rewrite Hid.
Qed.

Lemma destination_entry (d : document) (e : string) :
  e ∈ destinationPages_data d ↔
  e ≠ EmptyString
  ∧ ∃ p, p ∈ split "," (raw_destinations d) ∧ e = toLowerCase (trim p).
Proof.
  rewrite destinationPages_data_eq, list_elem_of_filter, truthy_nonempty.
  rewrite list_elem_of_In, List.in_map_iff.
  split; intros [Hne (p & Hp1 & Hp2)]; (split; [done |]); exists p.
  - by rewrite list_elem_of_In.
  - by rewrite <- list_elem_of_In.
Qed.

(** X17. The second script does nothing exactly when every comma-separated
    piece of [data-destinations] is blank, as when the attribute or the body
    is missing: it then records no anchor and leaves every element as it
    was, a stale "shimmer" included. *)
Theorem no_destinations_no_change (d : document) :
  (destinationPages_data d = [] ↔
   ∀ p, p ∈ split "," (raw_destinations d) → trim p = EmptyString)
  ∧ (raw_destinations d = EmptyString → destinationPages_data d = [])
  ∧ (destinationPages_data d = [] →
     recorded d DataDriven = [] ∧ run_script d DataDriven = elements d).
Proof.
  assert (destinationPages_data d = [] ↔
          ∀ p, p ∈ split "," (raw_destinations d) → trim p = EmptyString) as Hiff.
  { split.
    - intros Hnil p Hp. destruct (trim p) as [|c t] eqn:E; [done |].
      assert (toLowerCase (trim p) ∈ destinationPages_data d) as Hin.
      { apply destination_entry. split; [by rewrite E | by exists p]. }
      rewrite Hnil in Hin. by apply elem_of_nil in Hin.
    - intros Hall. destruct (destinationPages_data d) as [|e l] eqn:E; [done |].
      assert (e ∈ destinationPages_data d) as Hin by (rewrite E; by left).
      apply destination_entry in Hin as [Hne (p & Hp & ->)].
      by rewrite (Hall p Hp) in Hne. }
  split; [exact Hiff |]. split.
  - intros Hraw. apply Hiff. rewrite Hraw. cbn [split].
    by intros p ->%list_elem_of_singleton.
  - intros Hnil. unfold run_script, recorded. by rewrite Hnil.
Qed.

(** X18. The destination list of the second script holds exactly the
    non-blank pieces of [data-destinations], trimmed and lower-cased: every
    entry is lower-case, has no white space at either end and no comma, so
    the attribute is matched without regard to case or surrounding
    blanks. *)
Theorem destination_entries_normalised (d : document) (e : string) :
  (e ∈ destinationPages_data d ↔
   e ≠ EmptyString
   ∧ ∃ p, p ∈ split "," (raw_destinations d) ∧ e = toLowerCase (trim p))
  ∧ (e ∈ destinationPages_data d →
     toLowerCase e = e ∧ clean_ends e ∧ ¬ occurs "," e).
Proof.
  split; [apply destination_entry |].
  intros [_ (p & Hp & ->)]%destination_entry. split; [apply toLowerCase_idempotent |].
  split; [apply toLowerCase_clean, trim_clean |].
  intros Hc. apply (split_pieces "," (raw_destinations d) p Hp).
  apply trim_occurs. revert Hc. clear. generalize (trim p). intros s.
  induction s as [|c s IH]; cbn [toLowerCase]; [done |].
  rewrite !occurs_unit_cons. intros [E | Hs]; [left | right; auto].
  by apply (lower_unit_eq c ",").
Qed.

(** *** The further theorems at sample pages *)

Lemma recorded_filenames_normalised_witness :
  ("panama.html", 2%nat) ∈ recorded Demo.nav_page DataDriven
  ∧ "panama.html" ≠ EmptyString
  ∧ toLowerCase "panama.html" = "panama.html"
  ∧ ¬ occurs "/" "panama.html".
Proof.
  assert (("panama.html", 2%nat) ∈ recorded Demo.nav_page DataDriven) as Hin.
  { apply recorded_elem_of. vm_compute. reflexivity. }
  exact (conj Hin (recorded_filenames_normalised Demo.nav_page DataDriven _ _ Hin)).
Defined.

Lemma data_driven_records_first_witness :
  destinationPages_data Demo.duplicate_page ≠ []
  ∧ head (qualifying Demo.duplicate_page DataDriven "costarica.html") = Some 1%nat
  ∧ ("costarica.html", 1%nat) ∈ recorded Demo.duplicate_page DataDriven.
Proof.
  assert (destinationPages_data Demo.duplicate_page ≠ []) as Hne
    by (vm_compute; discriminate).
  assert (head (qualifying Demo.duplicate_page DataDriven "costarica.html") = Some 1%nat)
    as Hhead by (vm_compute; reflexivity).
  split; [exact Hne |]. split; [exact Hhead |].
  exact (proj2 (data_driven_records_first Demo.duplicate_page "costarica.html" 1 Hne) Hhead).
Defined.

Lemma one_anchor_per_filename_witness :
  filename_of Demo.duplicate_page 1%nat = Some "costarica.html"
  ∧ filename_of Demo.duplicate_page 2%nat = Some "costarica.html"
  ∧ (run_script Demo.duplicate_page FixedList !! 1%nat = elements Demo.duplicate_page !! 1%nat
     ∨ run_script Demo.duplicate_page FixedList !! 2%nat
       = elements Demo.duplicate_page !! 2%nat).
Proof.
  split; [reflexivity |]. split; [reflexivity |].
  apply (one_anchor_per_filename Demo.duplicate_page FixedList "costarica.html" 1 2);
    [discriminate | reflexivity | reflexivity].
Defined.

Lemma shimmerReapply_reruns_witness :
  destinationPages_data Demo.nav_page ≠ []
  ∧ shimmerReapply Demo.nav_page
      (with_elements Demo.nav_page (run_script Demo.nav_page DataDriven))
    = run_script Demo.nav_page DataDriven.
Proof.
  assert (destinationPages_data Demo.nav_page ≠ []) as Hne by (vm_compute; discriminate).
  split; [exact Hne |].
  exact (proj2 (shimmerReapply_reruns Demo.nav_page Demo.nav_page Hne)).
Defined.
End ShimmerMore.
